(** * OpenAI-Status: the change-detection engine of the status tracker

    A shallow embedding of the polling engine of [src/OpenAI_status.py]
    (class [StatusPageMonitor], the command-line variant) and of the inline
    diff logic of [src/server.py] ([poll_loop], the server variant), with the
    properties of the engine stated and proved over it.

    Modelling conventions.
    - A JSON object whose fields hold strings is a finite map from field names
      to strings; any field may be absent.  [d["k"]] is [getitem d "k"] and
      raises [KeyError]; [d.get("k", dflt)] is [get d "k" dflt].
    - Python dictionaries keyed by identifiers are [gmap string _], Python
      sets of identifiers are [gset string].
    - A method that mutates [self], prints and may raise is a function from
      the state to an [outcome]: the state reached, the notifications printed
      so far, and either the returned value or the exception raised.  State
      changes made before an exception are kept, as in Python.
    - A block of [print] calls that renders one notification is one [event]
      carrying the data the block interpolates; colours, icons and the wall
      clock ([now()]) are presentation and are left out.  A block interrupted
      by an exception contributes no event.
    - [datetime.fromisoformat] and the local-time rendering belong to the
      Python standard library; they are taken as an interface ([DateTimeLib]). *)

From Stdlib Require Import ZArith Ascii.
From stdpp Require Import gmap strings list fin_maps sorting.

Local Open Scope string_scope.
Local Open Scope Z_scope.
Local Open Scope list_scope.

(** ** Exceptions and results *)

Inductive exn : Type :=
| KeyError (key : string)
| ValueError (arg : string)
| LibraryError (what : string).

Inductive result (A : Type) : Type :=
| Ok (a : A)
| Raise (e : exn).
Arguments Ok {A} a.
Arguments Raise {A} e.

#[global] Instance result_ret : MRet result := @Ok.

#[global] Instance result_bind : MBind result := λ A B k r,
  match r with
  | Ok a => k a
  | Raise e => Raise e
  end.

Definition is_ok {A : Type} (r : result A) : bool :=
  match r with Ok _ => true | Raise _ => false end.

(** ** JSON objects with string fields *)

Abbreviation dict := (gmap string string).

(** [d[k]] *)
Definition getitem (d : dict) (k : string) : result string :=
  match d !! k with
  | Some v => Ok v
  | None => Raise (KeyError k)
  end.

(** [d.get(k, dflt)] *)
Definition get (d : dict) (k : string) (dflt : string) : string :=
  default dflt (d !! k).

(** An incident descriptor: its string fields, and its ["incident_updates"]
    list when the key is present. *)
Record incident : Type := {
  inc_fields : dict;
  incident_updates : option (list dict);
}.

(** The document served by [/api/v2/summary.json], as far as the engine reads
    it: the ["components"] list when the key is present. *)
Record summary_data : Type := {
  components : option (list dict);
}.

(** The document served by [/api/v2/incidents.json]. *)
Record incidents_data : Type := {
  incidents : option (list incident);
}.

(** ** The date and time library *)

Class DateTimeLib : Type := {
  datetime : Type;
  (** [datetime.fromisoformat(s)], which raises on text it does not accept *)
  fromisoformat : string → result datetime;
  (** [dt.astimezone().strftime("%Y-%m-%d %H:%M:%S")] *)
  local_strftime : datetime → result string;
}.

(** [ts.replace("Z", "+00:00")] *)
Fixpoint replace_Z (ts : string) : string :=
  match ts with
  | EmptyString => EmptyString
  | String c rest =>
      if Ascii.eqb c "Z"%char then "+00:00" +:+ replace_Z rest
      else String c (replace_Z rest)
  end.

Definition parse_ts `{DateTimeLib} (ts : string) : result datetime :=
  fromisoformat (replace_Z ts).

Definition fmt_time `{DateTimeLib} (ts : string) : result string :=
  dt ← parse_ts ts; local_strftime dt.

(** ** Outcomes and the [for] loop *)

Section Outcome.
Context {S E : Type}.

(** What a method did: the state it left, the notifications it printed,
    and the value it returned or the exception it raised. *)
Record outcome : Type := {
  out_state : S;
  out_events : list E;
  out_result : result bool;
}.

Definition returned (st : S) (evs : list E) (changes : bool) : outcome :=
  {| out_state := st; out_events := evs; out_result := Ok changes |}.

Definition raised (st : S) (evs : list E) (e : exn) : outcome :=
  {| out_state := st; out_events := evs; out_result := Raise e |}.

(** The events [evs] were printed before the computation [o] ran. *)
Definition after_events (evs : list E) (o : outcome) : outcome :=
  {| out_state := out_state o;
     out_events := evs ++ out_events o;
     out_result := out_result o |}.

(** [for x in l: body], where the body reads and writes a local flag and the
    state; an exception leaves the loop. *)
Fixpoint for_each {A : Type} (body : A → bool → S → outcome)
    (l : list A) (changes : bool) (st : S) : outcome :=
  match l with
  | [] => returned st [] changes
  | x :: rest =>
      let o := body x changes st in
      match out_result o with
      | Ok changes' =>
          after_events (out_events o) (for_each body rest changes' (out_state o))
      | Raise _ => o
      end
  end.
End Outcome.
Arguments outcome : clear implicits.

(** ** Reading incident updates *)

(** [{u["id"] for u in updates}] *)
Fixpoint update_id_set (updates : list dict) : result (gset string) :=
  match updates with
  | [] => Ok ∅
  | u :: rest =>
      i ← getitem u "id";
      ids ← update_id_set rest;
      Ok ({[i]} ∪ ids)
  end.

(** [u["id"] in new_ids], evaluated once [update_id_set] has returned, so
    that every update has an ["id"]. *)
Definition id_in (new_ids : gset string) (u : dict) : bool :=
  match u !! "id" with
  | Some i => bool_decide (i ∈ new_ids)
  | None => false
  end.

(** The sort key [lambda u: u.get("created_at", "")] *)
Definition created_at_key (u : dict) : string := get u "created_at" "".

(** [sorted(l, key=key, reverse=True)]: descending by key, elements with
    equal keys kept in their original order.  Python compares strings by
    code point; on UTF-8 text that is the order of the bytes, which
    [String.ltb] computes. *)
Fixpoint insert_reverse {A : Type} (key : A → string) (x : A) (l : list A) : list A :=
  match l with
  | [] => [x]
  | y :: rest =>
      if String.ltb (key x) (key y) then y :: insert_reverse key x rest
      else x :: y :: rest
  end.

Definition sorted_reverse {A : Type} (key : A → string) (l : list A) : list A :=
  foldr (insert_reverse key) [] l.

(** What one tick of the scheduler fetched: a document is present when the
    request answered 200 with a non-empty body. *)
Record fetched : Type := {
  fetched_summary : option summary_data;
  fetched_incidents : option incidents_data;
}.

(** ** Engine state of the command-line variant *)

Module Cli.

(** One value of [self.known_incidents]. *)
Record incident_record : Type := {
  updated_at : string;
  status : string;
  seen_update_ids : gset string;
}.

(** The fields of [StatusPageMonitor] the engine reads or writes.  The HTTP
    validators, [base_url], [debug] and [running] belong to the fetcher and
    the scheduler. *)
Record monitor : Type := {
  interval : option Z;
  known_incidents : gmap string incident_record;
  component_statuses : gmap string string;
  component_names : gmap string string;
  first_run : bool;
}.

(** [StatusPageMonitor.__init__] *)
Definition init (interval : option Z) : monitor :=
  {| interval := interval;
     known_incidents := ∅;
     component_statuses := ∅;
     component_names := ∅;
     first_run := true |}.

Definition set_known_incidents (st : monitor) (m : gmap string incident_record) : monitor :=
  {| interval := interval st;
     known_incidents := m;
     component_statuses := component_statuses st;
     component_names := component_names st;
     first_run := first_run st |}.

Definition set_component_statuses (st : monitor) (m : gmap string string) : monitor :=
  {| interval := interval st;
     known_incidents := known_incidents st;
     component_statuses := m;
     component_names := component_names st;
     first_run := first_run st |}.

Definition set_component_names (st : monitor) (m : gmap string string) : monitor :=
  {| interval := interval st;
     known_incidents := known_incidents st;
     component_statuses := component_statuses st;
     component_names := m;
     first_run := first_run st |}.

Definition set_first_run (st : monitor) (b : bool) : monitor :=
  {| interval := interval st;
     known_incidents := known_incidents st;
     component_statuses := component_statuses st;
     component_names := component_names st;
     first_run := b |}.

Definition CALM_INTERVAL : Z := 60.
Definition ACTIVE_INTERVAL : Z := 15.

(** [v.get("status") not in ("resolved", "postmortem")] *)
Definition is_active (v : incident_record) : bool :=
  negb (String.eqb (status v) "resolved" || String.eqb (status v) "postmortem").

(** [StatusPageMonitor.get_interval] *)
Definition get_interval (st : monitor) : Z :=
  match interval st with
  | Some i => i
  | None =>
      let has_active := existsb (λ kv, is_active kv.2) (map_to_list (known_incidents st)) in
      if has_active then ACTIVE_INTERVAL else CALM_INTERVAL
  end.

(** ** Notifications *)

Inductive event : Type :=
(** the "COMPONENT STATUS CHANGE" block *)
| ComponentStatusChange (name old new : string)
(** the "NEW INCIDENT" block *)
| NewIncident (name impact status body : string)
(** the "INCIDENT UPDATE" block; [time] is the rendered [created_at] *)
| IncidentUpdate (name s body time : string).

(** ** [process_summary] *)

(** The body of the loop of [process_summary]. *)
Definition process_component (comp : dict) (changes : bool) (st : monitor)
    : outcome monitor event :=
  match (cid ← getitem comp "id";
         name ← getitem comp "name";
         status ← getitem comp "status";
         Ok (cid, name, status)) with
  | Raise e => raised st [] e
  | Ok (cid, name, status) =>
      let st := set_component_names st (<[cid := name]> (component_names st)) in
      let old := component_statuses st !! cid in
      let o :=
        match old with
        | Some old' =>
            if decide (old' ≠ status)
            then returned st [ComponentStatusChange name old' status] true
            else returned st [] changes
        | None => returned st [] changes
        end in
      {| out_state := set_component_statuses (out_state o)
                        (<[cid := status]> (component_statuses (out_state o)));
         out_events := out_events o;
         out_result := out_result o |}
  end.

Definition process_summary (data : summary_data) (st : monitor)
    : outcome monitor event :=
  for_each process_component (default [] (components data)) false st.

(** ** [process_incidents] *)

Section Incidents.
Context `{DateTimeLib}.

(** The body of the loop over [new_updates]: one "INCIDENT UPDATE" block. *)
Definition print_update (inc : incident) (upd : dict) (changes : bool) (st : monitor)
    : outcome monitor event :=
  let s := get upd "status" "unknown" in
  let body := get upd "body" "" in
  match (time ← fmt_time (get upd "created_at" "");
         name ← getitem (inc_fields inc) "name";
         Ok (time, name)) with
  | Raise e => raised st [] e
  | Ok (time, name) => returned st [IncidentUpdate name s body time] true
  end.

(** The body of the loop of [process_incidents]. *)
Definition process_incident (suppress : bool) (inc : incident) (changes : bool)
    (st : monitor) : outcome monitor event :=
  let updates := default [] (incident_updates inc) in
  match (iid ← getitem (inc_fields inc) "id";
         update_ids ← update_id_set updates;
         Ok (iid, update_ids)) with
  | Raise e => raised st [] e
  | Ok (iid, update_ids) =>
      match known_incidents st !! iid with
      | None =>
          let st := set_known_incidents st
            (<[iid := {| updated_at := get (inc_fields inc) "updated_at" "";
                         status := get (inc_fields inc) "status" "";
                         seen_update_ids := update_ids |}]> (known_incidents st)) in
          if suppress then returned st [] changes
          else
            let impact := get (inc_fields inc) "impact" "none" in
            let status := get (inc_fields inc) "status" "unknown" in
            let body := match updates with
                        | u :: _ => get u "body" ""
                        | [] => ""
                        end in
            match getitem (inc_fields inc) "name" with
            | Raise e => raised st [] e
            | Ok name => returned st [NewIncident name impact status body] true
            end
      | Some known =>
          let new_ids := update_ids ∖ seen_update_ids known in
          if decide (new_ids = ∅) then returned st [] changes
          else
            let new_updates :=
              sorted_reverse created_at_key (List.filter (id_in new_ids) updates) in
            let o := for_each (print_update inc) new_updates changes st in
            match out_result o with
            | Raise _ => o
            | Ok changes' =>
                returned
                  (set_known_incidents st
                     (<[iid := {| updated_at := get (inc_fields inc) "updated_at" "";
                                  status := get (inc_fields inc) "status" "";
                                  seen_update_ids := update_ids |}]> (known_incidents st)))
                  (out_events o) changes'
            end
      end
  end.

Definition process_incidents (data : incidents_data) (suppress : bool) (st : monitor)
    : outcome monitor event :=
  for_each (process_incident suppress) (default [] (incidents data)) false st.

(** ** [poll] and [run] *)

(** [poll], given what the two requests fetched.  The debug line and the
    "Loaded" summary of the first run are not change notifications. *)
Definition poll (f : fetched) (st : monitor) : outcome monitor event :=
  let o1 := match fetched_summary f with
            | Some data => process_summary data st
            | None => returned st [] false
            end in
  match out_result o1 with
  | Raise _ => o1
  | Ok c1 =>
      let st1 := out_state o1 in
      let o2 := match fetched_incidents f with
                | Some data => process_incidents data (first_run st1) st1
                | None => returned st1 [] false
                end in
      match out_result o2 with
      | Raise _ => after_events (out_events o1) o2
      | Ok c2 =>
          let st2 := out_state o2 in
          returned (if first_run st2 then set_first_run st2 false else st2)
            (out_events o1 ++ out_events o2) (c1 || c2)
      end
  end.

(** [run] over the ticks of the scheduler: an exception raised by a poll
    is caught and reported, and the loop goes on from the state reached. *)
Fixpoint run (ticks : list fetched) (st : monitor) : monitor * list event :=
  match ticks with
  | [] => (st, [])
  | f :: rest =>
      let o := poll f st in
      let '(st', evs) := run rest (out_state o) in
      (st', out_events o ++ evs)
  end.
End Incidents.

End Cli.

(** ** The server variant: the loop of [poll_loop] *)

Module Server.

(** One value of the global [known_incidents]. *)
Record incident_record : Type := {
  status : string;
  seen : gset string;
}.

(** The globals [known_incidents], [component_statuses] and [first_run]. *)
Record globals : Type := {
  known_incidents : gmap string incident_record;
  component_statuses : gmap string string;
  first_run : bool;
}.

Definition init : globals :=
  {| known_incidents := ∅; component_statuses := ∅; first_run := true |}.

Definition set_known_incidents (st : globals) (m : gmap string incident_record) : globals :=
  {| known_incidents := m;
     component_statuses := component_statuses st;
     first_run := first_run st |}.

Definition set_component_statuses (st : globals) (m : gmap string string) : globals :=
  {| known_incidents := known_incidents st;
     component_statuses := m;
     first_run := first_run st |}.

Definition set_first_run (st : globals) (b : bool) : globals :=
  {| known_incidents := known_incidents st;
     component_statuses := component_statuses st;
     first_run := b |}.

(** The lines sent to [push_log] for one change, as one notification. *)
Inductive event : Type :=
(** "COMPONENT CHANGE" and the line below it *)
| ComponentChange (name old new : string)
(** "NEW INCIDENT" and the line below it *)
| NewIncident (name impact status : string)
(** "UPDATE" and the line below it; [time] is the rendered [created_at] *)
| Update (name s body time : string).

(** The body of the loop taken when [summary and first_run]:
    [component_statuses[comp["id"]] = comp["status"]], the right-hand side
    being evaluated first. *)
Definition load_component (comp : dict) (changes : bool) (st : globals)
    : outcome globals event :=
  match (status ← getitem comp "status";
         cid ← getitem comp "id";
         Ok (cid, status)) with
  | Raise e => raised st [] e
  | Ok (cid, status) =>
      returned (set_component_statuses st (<[cid := status]> (component_statuses st)))
        [] changes
  end.

(** The truth value of [old], a string or [None]. *)
Definition truthy (old : option string) : bool :=
  match old with
  | Some s => negb (String.eqb s "")
  | None => false
  end.

(** The body of the loop taken when [summary and not first_run]. *)
Definition diff_component (comp : dict) (changes : bool) (st : globals)
    : outcome globals event :=
  match getitem comp "id" with
  | Raise e => raised st [] e
  | Ok cid =>
      let old := component_statuses st !! cid in
      let store (evs : list event) (changes : bool) :=
        match getitem comp "status" with
        | Raise e => raised st evs e
        | Ok status =>
            returned (set_component_statuses st (<[cid := status]> (component_statuses st)))
              evs changes
        end in
      if truthy old then
        match getitem comp "status" with
        | Raise e => raised st [] e
        | Ok status =>
            if decide (old ≠ Some status) then
              match getitem comp "name" with
              | Raise e => raised st [] e
              | Ok name => store [ComponentChange name (default "" old) status] true
              end
            else store [] changes
        end
      else store [] changes
  end.

Section Incidents.
Context `{DateTimeLib}.

(** The body of the loop over the sorted new updates. *)
Definition log_update (inc : incident) (u : dict) (changes : bool) (st : globals)
    : outcome globals event :=
  let s := get u "status" "" in
  let body := get u "body" "" in
  match (created_at ← getitem u "created_at";
         time ← fmt_time created_at;
         name ← getitem (inc_fields inc) "name";
         Ok (time, name)) with
  | Raise e => raised st [] e
  | Ok (time, name) => returned st [Update name s body time] true
  end.

(** The body of the loop over [incidents_data["incidents"]]. *)
Definition diff_incident (inc : incident) (changes : bool) (st : globals)
    : outcome globals event :=
  let updates := default [] (incident_updates inc) in
  match (iid ← getitem (inc_fields inc) "id";
         update_ids ← update_id_set updates;
         Ok (iid, update_ids)) with
  | Raise e => raised st [] e
  | Ok (iid, update_ids) =>
      match known_incidents st !! iid with
      | None =>
          let st := set_known_incidents st
            (<[iid := {| status := get (inc_fields inc) "status" "";
                         seen := update_ids |}]> (known_incidents st)) in
          if first_run st then returned st [] changes
          else
            let impact := get (inc_fields inc) "impact" "none" in
            match getitem (inc_fields inc) "name" with
            | Raise e => raised st [] e
            | Ok name =>
                returned st [NewIncident name impact (get (inc_fields inc) "status" "")] true
            end
      | Some known =>
          let new_ids := update_ids ∖ seen known in
          if decide (new_ids = ∅) then returned st [] changes
          else
            let new_updates :=
              sorted_reverse created_at_key (List.filter (id_in new_ids) updates) in
            let o := for_each (log_update inc) new_updates changes st in
            match out_result o with
            | Raise _ => o
            | Ok changes' =>
                returned
                  (set_known_incidents st
                     (<[iid := {| status := get (inc_fields inc) "status" "";
                                  seen := update_ids |}]> (known_incidents st)))
                  (out_events o) changes'
            end
      end
  end.

(** One iteration of the [while True] loop of [poll_loop], given what the
    two requests fetched.  The "Loaded" and "Tracking" lines are not change
    notifications. *)
Definition poll_iteration (f : fetched) (st : globals) : outcome globals event :=
  let o1 := match fetched_summary f with
            | Some summary =>
                for_each (if first_run st then load_component else diff_component)
                  (default [] (components summary)) false st
            | None => returned st [] false
            end in
  match out_result o1 with
  | Raise _ => o1
  | Ok c1 =>
      let st1 := out_state o1 in
      let o2 := match fetched_incidents f with
                | Some data => for_each diff_incident (default [] (incidents data)) false st1
                | None => returned st1 [] false
                end in
      match out_result o2 with
      | Raise _ => after_events (out_events o1) o2
      | Ok c2 =>
          let st2 := out_state o2 in
          returned (if first_run st2 then set_first_run st2 false else st2)
            (out_events o1 ++ out_events o2) (c1 || c2)
      end
  end.

(** [poll_loop] over the ticks of the scheduler: an exception leaves the
    loop, and nothing more is polled. *)
Fixpoint poll_loop (ticks : list fetched) (st : globals) : globals * list event :=
  match ticks with
  | [] => (st, [])
  | f :: rest =>
      let o := poll_iteration f st in
      match out_result o with
      | Raise _ => (out_state o, out_events o)
      | Ok _ =>
          let '(st', evs) := poll_loop rest (out_state o) in
          (st', out_events o ++ evs)
      end
  end.

(** The sleep chosen at the end of an iteration. *)
Definition sleep_interval (st : globals) : Z :=
  let has_active :=
    existsb (λ kv, negb (String.eqb (status kv.2) "resolved"
                         || String.eqb (status kv.2) "postmortem"))
      (map_to_list (known_incidents st)) in
  if has_active then 15 else 60.
End Incidents.

End Server.

(** ** The fetcher of the command-line variant: [fetch], and [poll] over it *)

Module Http.

(** One pair of validators of the monitor ([summary_etag] and
    [summary_modified], or the incidents pair); [None] until an answer sets
    them. *)
Record validators : Type := {
  etag : option string;
  modified : option string;
}.

(** What [session.get] answered, as far as [fetch] reads it: the status, the
    ["ETag"] and ["Last-Modified"] headers when present, and the parsed body,
    [None] standing for a body whose JSON value is falsy (the empty object).
    A body that does not parse is outside the model. *)
Record response (A : Type) : Type := {
  status : Z;
  header_etag : option string;
  header_last_modified : option string;
  json : option A;
}.
Arguments status {A} r.
Arguments header_etag {A} r.
Arguments header_last_modified {A} r.
Arguments json {A} r.

(** The request either is answered or raises [asyncio.TimeoutError] or
    [aiohttp.ClientError], which [fetch] catches. *)
Inductive answer (A : Type) : Type :=
| Answered (r : response A)
| Failed.
Arguments Answered {A} r.
Arguments Failed {A}.

(** The truth value of a string or [None]. *)
Definition truthy (s : option string) : bool :=
  match s with
  | Some s => negb (String.eqb s "")
  | None => false
  end.

(** [a or b] *)
Definition or_else (a b : option string) : option string :=
  if truthy a then a else b.

(** [if v: headers[k] = v] *)
Definition set_if_truthy (k : string) (v : option string) (headers : dict) : dict :=
  match v with
  | Some s => if truthy v then <[k := s]> headers else headers
  | None => headers
  end.

(** The headers [fetch] sends. *)
Definition request_headers (v : validators) : dict :=
  set_if_truthy "If-Modified-Since" (modified v)
    (set_if_truthy "If-None-Match" (etag v) ∅).

(** [fetch]: the status, the data and the validators it returns.  The error
    lines it prints are not change notifications. *)
Definition fetch {A : Type} (v : validators) (a : answer A) : Z * option A * validators :=
  match a with
  | Failed => (0, None, v)
  | Answered r =>
      let new_etag := or_else (header_etag r) (etag v) in
      let new_modified := or_else (header_last_modified r) (modified v) in
      if status r =? 304 then (304, None, v)
      else if status r =? 200
           then (200, json r, {| etag := new_etag; modified := new_modified |})
           else (status r, None, v)
  end.

(** The validators after a series of requests to one endpoint, each sent
    with the validators the previous one returned. *)
Definition fetch_all {A : Type} (v : validators) (answers : list (answer A)) : validators :=
  foldl (λ v a, (fetch v a).2) v answers.

(** The monitor with its two pairs of validators. *)
Record session : Type := {
  summary_validators : validators;
  incidents_validators : validators;
  monitor : Cli.monitor;
}.

Definition set_monitor (s : session) (m : Cli.monitor) : session :=
  {| summary_validators := summary_validators s;
     incidents_validators := incidents_validators s;
     monitor := m |}.

(** What the answers of one tick make available to the engine: a document
    is processed when [status == 200 and data]. *)
Definition document {A : Type} (v : validators) (a : answer A) : option A :=
  let '(status, data, _) := fetch v a in
  if status =? 200 then data else None.

Section Poll.
Context `{DateTimeLib}.

(** [poll] with its two requests.  The request for the incidents is only
    made when [process_summary] returned. *)
Definition poll (a_summary : answer summary_data) (a_incidents : answer incidents_data)
    (s : session) : outcome session Cli.event :=
  let s1 := {| summary_validators := (fetch (summary_validators s) a_summary).2;
               incidents_validators := incidents_validators s;
               monitor := monitor s |} in
  let o1 := match document (summary_validators s) a_summary with
            | Some data => Cli.process_summary data (monitor s1)
            | None => returned (monitor s1) [] false
            end in
  match out_result o1 with
  | Raise e => raised (set_monitor s1 (out_state o1)) (out_events o1) e
  | Ok c1 =>
      let m1 := out_state o1 in
      let s2 := {| summary_validators := summary_validators s1;
                   incidents_validators := (fetch (incidents_validators s1) a_incidents).2;
                   monitor := m1 |} in
      let o2 := match document (incidents_validators s1) a_incidents with
                | Some data => Cli.process_incidents data (Cli.first_run m1) m1
                | None => returned m1 [] false
                end in
      match out_result o2 with
      | Raise e => raised (set_monitor s2 (out_state o2)) (out_events o1 ++ out_events o2) e
      | Ok c2 =>
          let m2 := out_state o2 in
          returned
            (set_monitor s2 (if Cli.first_run m2 then Cli.set_first_run m2 false else m2))
            (out_events o1 ++ out_events o2) (c1 || c2)
      end
  end.
End Poll.

(** What the two answers of a tick fetched, for the engine. *)
Definition fetched_of (s : session) (a_summary : answer summary_data)
    (a_incidents : answer incidents_data) : fetched :=
  {| fetched_summary := document (summary_validators s) a_summary;
     fetched_incidents := document (incidents_validators s) a_incidents |}.

End Http.

(** ** Start-up of the command-line variant: [__init__] and the banner of [main] *)

Module Startup.

(** [base_url.rstrip("/")] *)
Fixpoint rstrip_slash (s : string) : string :=
  match s with
  | EmptyString => EmptyString
  | String c rest =>
      let rest' := rstrip_slash rest in
      if Ascii.eqb c "/"%char && String.eqb rest' "" then EmptyString
      else String c rest'
  end.

Definition SUMMARY_URL : string := "/api/v2/summary.json".
Definition INCIDENTS_URL : string := "/api/v2/incidents.json".

(** The URLs [poll] requests, for the [--url] argument [base_url]. *)
Definition summary_url (base_url : string) : string :=
  rstrip_slash base_url +:+ SUMMARY_URL.

Definition incidents_url (base_url : string) : string :=
  rstrip_slash base_url +:+ INCIDENTS_URL.



End Startup.

(** ** The log of the server variant: [log_lines], [clients] and [push_log] *)

Module Hub.

(** The globals [log_lines] and [clients]; a client is its queue, the lines
    put and not yet taken. *)
Record hub : Type := {
  log_lines : list string;
  clients : list (list string);
}.

Definition init : hub := {| log_lines := []; clients := [] |}.

(** [push_log]: append, drop the oldest line beyond 500, and put the line in
    every queue (the queues are unbounded, [put_nowait] does not raise). *)
Definition push_log (line : string) (h : hub) : hub :=
  let lines := log_lines h ++ [line] in
  let lines := if (500 <? length lines)%nat then tail lines else lines in
  {| log_lines := lines;
     clients := (λ q, q ++ [line]) <$> clients h |}.

(** A series of calls of [push_log]. *)
Definition push_all (lines : list string) (h : hub) : hub :=
  foldl (λ h line, push_log line h) h lines.

(** The start of [sse_handler], up to its first [await]: a new empty queue
    is appended to [clients]. *)
Definition connect (h : hub) : hub :=
  {| log_lines := log_lines h; clients := clients h ++ [[]] |}.

End Hub.

(** ** [replay] of the command-line variant *)

Module Replay.

(** The summary document as [replay] reads it: the ["status"] object and the
    ["components"] list, when present. *)
Record summary_document : Type := {
  summary_status : option dict;
  summary_components : option (list dict);
}.

(** The lines [replay] prints that carry data of the documents. *)
Inductive line : Type :=
(** "Overall: ..." *)
| Overall (description : string)
(** "Components (n):" *)
| ComponentsHeader (n : nat)
(** one component: its name, and the status its icon and label come from *)
| Component (name status : string)
(** "Recent Incidents (n):" *)
| IncidentsHeader (n : nat)
| IncidentName (name impact : string)
| IncidentStatus (status impact : string)
| Created (time : string)
| Resolved (time : string)
(** one update: its status, rendered time and body *)
| UpdateLine (status time body : string)
(** "Done. Run without --replay for live monitoring." *)
| Finished.

(** The lines printed, and the exception that ended the printing, if any. *)
Definition printed : Type := list line * option exn.

Definition prints (ls : list line) : printed := (ls, None).

Definition raises (e : exn) : printed := ([], Some e).

(** [p] and then, unless it raised, [k]. *)
Definition and_then (p k : printed) : printed :=
  match p.2 with
  | None => (p.1 ++ k.1, k.2)
  | Some e => p
  end.

(** [for x in l: body] *)
Fixpoint print_each {A : Type} (body : A → printed) (l : list A) : printed :=
  match l with
  | [] => prints []
  | x :: rest => and_then (body x) (print_each body rest)
  end.

(** The body of the loop over the components. *)
Definition print_component (c : dict) : printed :=
  match (status ← getitem c "status";
         name ← getitem c "name";
         Ok (name, status)) with
  | Ok (name, status) => prints [Component name status]
  | Raise e => raises e
  end.

Section Replay.
Context `{DateTimeLib}.

(** The body of the loop over the reversed updates of an incident. *)
Definition print_update (u : dict) : printed :=
  match (created_at ← getitem u "created_at"; fmt_time created_at) with
  | Ok time => prints [UpdateLine (get u "status" "?") time (get u "body" "")]
  | Raise e => raises e
  end.

(** The body of the loop over [incidents[:10]]. *)
Definition print_incident (inc : incident) : printed :=
  let impact := get (inc_fields inc) "impact" "none" in
  let status := get (inc_fields inc) "status" "unknown" in
  let has_resolved := Http.truthy (inc_fields inc !! "resolved_at") in
  match (if has_resolved
         then (resolved_at ← getitem (inc_fields inc) "resolved_at"; fmt_time resolved_at)
         else Ok "ongoing") with
  | Raise e => raises e
  | Ok resolved =>
      match getitem (inc_fields inc) "name" with
      | Raise e => raises e
      | Ok name =>
          and_then (prints [IncidentName name impact; IncidentStatus status impact])
            match (created_at ← getitem (inc_fields inc) "created_at";
                   fmt_time created_at) with
            | Raise e => raises e
            | Ok created =>
                and_then
                  (prints (Created created :: if has_resolved then [Resolved resolved] else []))
                  (print_each print_update (rev (default [] (incident_updates inc))))
            end
      end
  end.

(** [replay], given the two documents ([{}] for a request that did not
    answer 200). *)
Definition replay (summary : summary_document) (incidents_data : incidents_data) : printed :=
  let components := default [] (summary_components summary) in
  let overall := get (default ∅ (summary_status summary)) "description" "Unknown" in
  and_then (prints [Overall overall; ComponentsHeader (length components)])
    (and_then (print_each print_component components)
       (let incidents := default [] (incidents incidents_data) in
        and_then (prints [IncidentsHeader (length incidents)])
          (and_then (print_each print_incident (take 10 incidents))
             (prints [Finished])))).
End Replay.

End Replay.

(** ** A date and time library for worked examples

    It accepts exactly the texts [YYYY-MM-DDTHH:MM:SS+00:00] (what a
    Statuspage timestamp ending in [Z] becomes under [replace_Z]) and renders
    them for a local zone equal to UTC. *)

Definition utc_fromisoformat (s : string) : result string :=
  if bool_decide (String.length s = 25%nat)
     && String.eqb (String.substring 10 1 s) "T"
     && String.eqb (String.substring 19 6 s) "+00:00"
  then Ok s else Raise (ValueError s).

Definition utc_strftime (dt : string) : result string :=
  Ok (String.substring 0 10 dt +:+ " " +:+ String.substring 11 8 dt).

Definition utc_datetime : DateTimeLib :=
  {| datetime := string;
     fromisoformat := utc_fromisoformat;
     local_strftime := utc_strftime |}.

(** ** A date and time library with zone offsets, for worked examples

    It accepts exactly the texts [YYYY-MM-DDTHH:MM:SS+HH:MM] and
    [YYYY-MM-DDTHH:MM:SS-HH:MM] of a valid date and time of the years 1001 to
    9998, which [datetime.fromisoformat] accepts too.  A [datetime] is the
    instant the text denotes, in seconds since 1970-01-01T00:00:00 UTC, and
    the local zone of [astimezone()] is UTC. *)

Module Iso.

Definition digit (c : ascii) : option Z :=
  let n := Z.of_N (N_of_ascii c) in
  if ((48 <=? n) && (n <=? 57)) then Some (n - 48) else None.

Fixpoint number_from (acc : Z) (s : string) : option Z :=
  match s with
  | EmptyString => Some acc
  | String c rest => d ← digit c; number_from (10 * acc + d) rest
  end.

(** The number written by the [len] decimal digits of [s] from index [i]. *)
Definition number (i len : nat) (s : string) : option Z :=
  number_from 0 (String.substring i len s).

Definition is_leap (y : Z) : bool :=
  ((y mod 4 =? 0) && (negb (y mod 100 =? 0) || (y mod 400 =? 0))).

Definition days_in_month (y m : Z) : Z :=
  if (m =? 2) then (if is_leap y then 29 else 28)
  else if ((m =? 4) || (m =? 6) || (m =? 9) || (m =? 11)) then 30
  else 31.

(** Days from 1970-01-01 to the day [d] of the month [m] of the year [y]
    of the Gregorian calendar. *)
Definition days_from_civil (y m d : Z) : Z :=
  let y := (if m <=? 2 then y - 1 else y) in
  let era := (y / 400) in
  let yoe := (y - era * 400) in
  let doy := ((153 * (if 2 <? m then m - 3 else m + 9) + 2) / 5 + d - 1) in
  let doe := (yoe * 365 + yoe / 4 - yoe / 100 + doy) in
  (era * 146097 + doe - 719468).

(** The year, month and day of the day [z] days after 1970-01-01. *)
Definition civil_from_days (z : Z) : Z * Z * Z :=
  let z := (z + 719468) in
  let era := (z / 146097) in
  let doe := (z - era * 146097) in
  let yoe := ((doe - doe / 1460 + doe / 36524 - doe / 146096) / 365) in
  let doy := (doe - (365 * yoe + yoe / 4 - yoe / 100)) in
  let mp := ((5 * doy + 2) / 153) in
  let d := (doy - (153 * mp + 2) / 5 + 1) in
  let m := (if mp <? 10 then mp + 3 else mp - 9) in
  let y := (yoe + era * 400) in
  ((if m <=? 2 then y + 1 else y), m, d).

Definition fromisoformat (s : string) : result Z :=
  let parsed :=
    year ← number 0 4 s; month ← number 5 2 s; day ← number 8 2 s;
    hour ← number 11 2 s; minute ← number 14 2 s; second ← number 17 2 s;
    offset_hour ← number 20 2 s; offset_minute ← number 23 2 s;
    sign ← (if String.eqb (String.substring 19 1 s) "+" then Some 1
            else if String.eqb (String.substring 19 1 s) "-" then Some (-1)
            else None);
    if bool_decide (String.length s = 25%nat)
       && String.eqb (String.substring 4 1 s) "-"
       && String.eqb (String.substring 7 1 s) "-"
       && String.eqb (String.substring 10 1 s) "T"
       && String.eqb (String.substring 13 1 s) ":"
       && String.eqb (String.substring 16 1 s) ":"
       && String.eqb (String.substring 22 1 s) ":"
       && (1001 <=? year) && (year <=? 9998) && (1 <=? month) && (month <=? 12)
       && (1 <=? day) && (day <=? days_in_month year month)
       && (hour <? 24) && (minute <? 60) && (second <? 60)
       && (offset_hour <? 24) && (offset_minute <? 60)
    then Some (days_from_civil year month day * 86400
               + hour * 3600 + minute * 60 + second
               - sign * (offset_hour * 3600 + offset_minute * 60))
    else None in
  match parsed with
  | Some instant => Ok instant
  | None => Raise (ValueError s)
  end.

Definition digit_char (n : Z) : ascii := ascii_of_N (Z.to_N (48 + n mod 10)).

Definition two_digits (n : Z) : string :=
  String (digit_char (n / 10)) (String (digit_char n) EmptyString).

Definition four_digits (n : Z) : string :=
  two_digits (n / 100) +:+ two_digits (n mod 100).

(** [strftime("%Y-%m-%d %H:%M:%S")] of the instant, in UTC. *)
Definition local_strftime (instant : Z) : result string :=
  let '(y, m, d) := civil_from_days (instant / 86400) in
  let secs := (instant mod 86400) in
  Ok (four_digits y +:+ "-" +:+ two_digits m +:+ "-" +:+ two_digits d +:+ " "
      +:+ two_digits (secs / 3600) +:+ ":" +:+ two_digits (secs mod 3600 / 60)
      +:+ ":" +:+ two_digits (secs mod 60)).

End Iso.

Definition iso_datetime : DateTimeLib :=
  {| datetime := Z;
     fromisoformat := Iso.fromisoformat;
     local_strftime := Iso.local_strftime |}.

(** ** Worked examples: documents of the kind the status page serves *)

Definition api_operational : dict :=
  {[ "id" := "x"; "name" := "API"; "status" := "operational" ]}.

Definition api_major_outage : dict :=
  {[ "id" := "x"; "name" := "API"; "status" := "major_outage" ]}.

(** A component descriptor without an ["id"]. *)
Definition api_without_id : dict :=
  {[ "name" := "API"; "status" := "operational" ]}.

(** A component descriptor without a ["status"]. *)
Definition api_without_status : dict :=
  {[ "id" := "x"; "name" := "API" ]}.

Definition update_a : dict :=
  {[ "id" := "a"; "status" := "investigating";
     "body" := "We are investigating elevated error rates.";
     "created_at" := "2024-01-01T00:00:00Z" ]}.

Definition update_b : dict :=
  {[ "id" := "b"; "status" := "identified";
     "body" := "The cause has been identified.";
     "created_at" := "2024-01-01T01:00:00Z" ]}.

Definition update_c : dict :=
  {[ "id" := "c"; "status" := "resolved";
     "body" := "The incident has been resolved.";
     "created_at" := "2024-01-01T02:00:00Z" ]}.

(** Update "d", created one second after update "b", its time written for
    the zone one hour west of UTC. *)
Definition update_d : dict :=
  {[ "id" := "d"; "status" := "monitoring";
     "body" := "A fix is being monitored.";
     "created_at" := "2024-01-01T00:00:01-01:00" ]}.


(** Incident "1" at a given overall status, delivered with the given
    updates. *)
Definition outage (status : string) (updates : list dict) : incident :=
  {| inc_fields := {[ "id" := "1"; "name" := "Outage"; "impact" := "major";
                      "status" := status; "updated_at" := "2024-01-01T02:00:00Z" ]};
     incident_updates := Some updates |}.

(** An incident descriptor that carries nothing but its ID and name. *)
Definition bare_incident : incident :=
  {| inc_fields := {[ "id" := "2"; "name" := "Maintenance" ]};
     incident_updates := None |}.

(** An incident descriptor without a ["name"]. *)
Definition incident_without_name : incident :=
  {| inc_fields := {[ "id" := "3"; "status" := "investigating" ]};
     incident_updates := None |}.

(** The state of a monitor that tracks incident "1" and has seen its update
    "a". *)
Definition tracking_outage : Cli.monitor :=
  {| Cli.interval := None;
     Cli.known_incidents :=
       {[ "1" := {| Cli.updated_at := "2024-01-01T00:00:00Z";
                    Cli.status := "investigating";
                    Cli.seen_update_ids := {[ "a" ]} |} ]};
     Cli.component_statuses := ∅;
     Cli.component_names := ∅;
     Cli.first_run := false |}.

(** Two ticks: the second delivers incident "1" without its update "a". *)
Definition tick_ab : fetched :=
  {| fetched_summary := None;
     fetched_incidents :=
       Some {| incidents := Some [outage "identified" [update_b; update_a]] |} |}.

Definition tick_cb : fetched :=
  {| fetched_summary := None;
     fetched_incidents :=
       Some {| incidents := Some [outage "resolved" [update_c; update_b]] |} |}.

(** ** Vocabulary of the statements *)

(** The record [process_incidents] stores for an incident descriptor
    delivered with the update IDs [ids]. *)
Definition stored_record (inc : incident) (ids : gset string) : Cli.incident_record :=
  {| Cli.updated_at := get (inc_fields inc) "updated_at" "";
     Cli.status := get (inc_fields inc) "status" "";
     Cli.seen_update_ids := ids |}.

(** An update whose ["id"] is not in the stored set of seen update IDs. *)
Definition is_new (seen : gset string) (u : dict) : bool :=
  match u !! "id" with
  | Some i => bool_decide (i ∉ seen)
  | None => false
  end.

(** [v] does not come before [u] in [sorted(..., reverse=True)]: the key of
    [v] is at most the key of [u]. *)
Definition key_ge {A : Type} (key : A → string) (u v : A) : Prop :=
  String.leb (key v) (key u) = true.

(** The flag [changes] of a loop body only decides the value returned. *)
Definition flag_irrelevant {S E A : Type} (body : A → bool → S → outcome S E) : Prop :=
  ∀ x c c' st,
    out_state (body x c st) = out_state (body x c' st)
    ∧ out_events (body x c st) = out_events (body x c' st)
    ∧ is_ok (out_result (body x c st)) = is_ok (out_result (body x c' st)).

(** A component descriptor that carries the three fields [process_summary]
    indexes. *)
Definition component_complete (comp : dict) : Prop :=
  is_Some (comp !! "id") ∧ is_Some (comp !! "name") ∧ is_Some (comp !! "status").

(** An incident descriptor that carries the fields [process_incidents]
    indexes, each update having an ["id"] and a ["created_at"] that
    [fmt_time] renders. *)
Definition incident_complete `{DateTimeLib} (inc : incident) : Prop :=
  is_Some (inc_fields inc !! "id")
  ∧ is_Some (inc_fields inc !! "name")
  ∧ Forall (λ u, is_Some (u !! "id") ∧ is_ok (fmt_time (created_at_key u)) = true)
      (default [] (incident_updates inc)).

(** [ev] is the "INCIDENT UPDATE" notification of the update [u] of an
    incident named [name]. *)
Definition update_event_of `{DateTimeLib} (name : string) (u : dict) (ev : Cli.event) : Prop :=
  ∃ time, fmt_time (created_at_key u) = Ok time
          ∧ ev = Cli.IncidentUpdate name (get u "status" "unknown") (get u "body" "") time.

(** ** Comparing the two variants *)

(** What the server variant keeps of a record of the command-line variant. *)
Definition forget_record (r : Cli.incident_record) : Server.incident_record :=
  {| Server.status := Cli.status r; Server.seen := Cli.seen_update_ids r |}.

(** What the server variant keeps of the state of the command-line variant:
    it has no component names, no ["updated_at"] and no fixed interval. *)
Definition forget (c : Cli.monitor) : Server.globals :=
  {| Server.known_incidents := forget_record <$> Cli.known_incidents c;
     Server.component_statuses := Cli.component_statuses c;
     Server.first_run := Cli.first_run c |}.

(** The server's notification for the same change; its "NEW INCIDENT" lines
    carry no update body. *)
Definition to_server (ev : Cli.event) : Server.event :=
  match ev with
  | Cli.ComponentStatusChange name old new => Server.ComponentChange name old new
  | Cli.NewIncident name impact status body => Server.NewIncident name impact status
  | Cli.IncidentUpdate name s body time => Server.Update name s body time
  end.

(** A component descriptor with its three fields and a non-empty status. *)
Definition component_regular (comp : dict) : Prop :=
  component_complete comp ∧ comp !! "status" ≠ Some "".

(** An update with ["id"], ["status"] and a ["created_at"] that [fmt_time]
    renders. *)
Definition update_regular `{DateTimeLib} (u : dict) : Prop :=
  is_Some (u !! "id") ∧ is_Some (u !! "status")
  ∧ ∃ ts, u !! "created_at" = Some ts ∧ is_ok (fmt_time ts) = true.

(** An incident descriptor with ["id"], ["name"] and ["status"], whose
    updates are regular. *)
Definition incident_regular `{DateTimeLib} (inc : incident) : Prop :=
  is_Some (inc_fields inc !! "id")
  ∧ is_Some (inc_fields inc !! "name")
  ∧ is_Some (inc_fields inc !! "status")
  ∧ Forall update_regular (default [] (incident_updates inc)).

Definition tick_regular `{DateTimeLib} (f : fetched) : Prop :=
  Forall component_regular
    (default [] (fetched_summary f ≫= components))
  ∧ Forall incident_regular
      (default [] (fetched_incidents f ≫= incidents)).

(** The component IDs of the summary of a tick, in order. *)
Definition component_ids (f : fetched) : list (option string) :=
  (λ comp : dict, comp !! "id") <$> default [] (fetched_summary f ≫= components).

(** The summary of the first tick names each component once. *)
Definition first_summary_distinct (ticks : list fetched) : Prop :=
  match ticks with
  | [] => True
  | f :: _ => NoDup (component_ids f)
  end.

(** A first tick whose summary names component "x" twice, and two ticks of
    which the first reports component "x" with an empty status. *)
Definition tick_repeated_component : fetched :=
  {| fetched_summary := Some {| components := Some [api_operational; api_major_outage] |};
     fetched_incidents := None |}.

Definition tick_empty_status : fetched :=
  {| fetched_summary :=
       Some {| components := Some [ {[ "id" := "x"; "name" := "API"; "status" := "" ]} ] |};
     fetched_incidents := None |}.

Definition tick_operational : fetched :=
  {| fetched_summary := Some {| components := Some [api_operational] |};
     fetched_incidents := None |}.

(** No recorded component status is the empty text. *)
Definition statuses_nonempty (m : gmap string string) : Prop :=
  ∀ cid s, m !! cid = Some s → s ≠ "".

(** A run of a loop body of the server variant from the state [forget c]
    matches the run of a loop body of the command-line variant from [c]:
    the latter returns, the former returns the same flag, prints the
    corresponding notifications and ends in the corresponding state. *)
Definition matches (oc : outcome Cli.monitor Cli.event)
    (os : outcome Server.globals Server.event) : Prop :=
  is_ok (out_result oc) = true
  ∧ out_result os = out_result oc
  ∧ out_events os = to_server <$> out_events oc
  ∧ out_state os = forget (out_state oc).

(** ** Vocabulary of the further properties *)

(** The value of the flag [changes] after the notifications [evs], when it
    was [c] before them. *)
Definition printed_or {E : Type} (c : bool) (evs : list E) : bool :=
  match evs with
  | [] => c
  | _ => true
  end.

(** A loop body returns its flag set when it printed, and as it was when
    it did not. *)
Definition flag_reports {S E A : Type} (body : A → bool → S → outcome S E) : Prop :=
  ∀ x c st c', out_result (body x c st) = Ok c' →
               c' = printed_or c (out_events (body x c st)).

Definition is_new_incident (ev : Cli.event) : bool :=
  match ev with
  | Cli.NewIncident _ _ _ _ => true
  | _ => false
  end.

(** The incident IDs of the incidents document of a tick, in order. *)
Definition incident_ids (f : fetched) : list (option string) :=
  (λ inc : incident, inc_fields inc !! "id")
    <$> default [] (fetched_incidents f ≫= incidents).

(** The "NEW INCIDENT" notification of an incident descriptor that has a
    name. *)
Definition new_incident_event (inc : incident) : Cli.event :=
  Cli.NewIncident (get (inc_fields inc) "name" "")
    (get (inc_fields inc) "impact" "none")
    (get (inc_fields inc) "status" "unknown")
    (match default [] (incident_updates inc) with
     | u :: _ => get u "body" ""
     | [] => ""
     end).

(** Every ID tracked in [st] is tracked in [st']. *)
Definition keeps_ids (st st' : Cli.monitor) : Prop :=
  dom (Cli.known_incidents st) ⊆ dom (Cli.known_incidents st')
  ∧ dom (Cli.component_statuses st) ⊆ dom (Cli.component_statuses st').

(** A tick in which nothing was fetched, and a tick that fetched an
    incidents document only. *)
Definition tick_nothing : fetched :=
  {| fetched_summary := None; fetched_incidents := None |}.

Definition tick_incidents (incs : list incident) : fetched :=
  {| fetched_summary := None;
     fetched_incidents := Some {| incidents := Some incs |} |}.

(** A session whose monitor polled before and holds validators, and the
    answers of a server that is unreachable, unchanged or in error. *)
Definition session_after_first_poll : Http.session :=
  {| Http.summary_validators :=
       {| Http.etag := Some "W/summary-1"; Http.modified := None |};
     Http.incidents_validators :=
       {| Http.etag := Some "W/incidents-1";
          Http.modified := Some "Mon, 01 Jan 2024 00:00:00 GMT" |};
     Http.monitor := tracking_outage |}.

Definition not_modified {A : Type} : Http.answer A :=
  Http.Answered {| Http.status := 304; Http.header_etag := Some "W/other";
                   Http.header_last_modified := None; Http.json := None |}.

Definition server_error {A : Type} : Http.answer A :=
  Http.Answered {| Http.status := 503; Http.header_etag := None;
                   Http.header_last_modified := None; Http.json := None |}.

Definition fresh_without_headers {A : Type} (body : A) : Http.answer A :=
  Http.Answered {| Http.status := 200; Http.header_etag := None;
                   Http.header_last_modified := Some ""; Http.json := Some body |}.

(** [n] slashes. *)
Fixpoint slashes (n : nat) : string :=
  match n with
  | O => EmptyString
  | S n => String "/"%char (slashes n)
  end.

(** Whether a text holds a capital Z. *)
Fixpoint has_Z (s : string) : bool :=
  match s with
  | EmptyString => false
  | String c rest => Ascii.eqb c "Z"%char || has_Z rest
  end.

(** The names of the incidents among the lines [replay] printed, and
    whether a line is the line of an update. *)
Fixpoint incident_names (ls : list Replay.line) : list string :=
  match ls with
  | [] => []
  | Replay.IncidentName name _ :: rest => name :: incident_names rest
  | _ :: rest => incident_names rest
  end.

Definition is_update_line (l : Replay.line) : bool :=
  match l with
  | Replay.UpdateLine _ _ _ => true
  | _ => false
  end.

(** [l] is the line [replay] prints for the update [u]. *)
Definition update_line_of `{DateTimeLib} (u : dict) (l : Replay.line) : Prop :=
  ∃ created_at time,
    u !! "created_at" = Some created_at ∧ fmt_time created_at = Ok time
    ∧ l = Replay.UpdateLine (get u "status" "?") time (get u "body" "").

(** A hub with one client connected and 499 lines logged. *)
Definition busy_hub : Hub.hub :=
  {| Hub.log_lines := replicate 499 "line"; Hub.clients := [["pending"]] |}.

(** Incident "1" as [replay] reads it: created, resolved, with two updates
    delivered latest first. *)
Definition resolved_outage : incident :=
  {| inc_fields := {[ "id" := "1"; "name" := "Outage"; "impact" := "major";
                      "status" := "resolved";
                      "created_at" := "2024-01-01T00:00:00Z";
                      "resolved_at" := "2024-01-01T01:00:00Z" ]};
     incident_updates := Some [update_b; update_a] |}.

(** A tick whose summary holds a component descriptor without an ["id"]. *)
Definition tick_without_id : fetched :=
  {| fetched_summary := Some {| components := Some [api_without_id] |};
     fetched_incidents := None |}.

Definition is_update (ev : Server.event) : bool :=
  match ev with
  | Server.Update _ _ _ _ => true
  | _ => false
  end.

Definition is_component_change (ev : Cli.event) : bool :=
  match ev with
  | Cli.ComponentStatusChange _ _ _ => true
  | _ => false
  end.

(** A tick whose summary is complete and whose incidents document holds a
    descriptor without a ["name"], and the tick after it, which delivers the
    same summary. *)
Definition tick_nameless_incident : fetched :=
  {| fetched_summary := Some {| components := Some [api_major_outage] |};
     fetched_incidents := Some {| incidents := Some [incident_without_name] |} |}.

Definition tick_same_summary : fetched :=
  {| fetched_summary := Some {| components := Some [api_major_outage] |};
     fetched_incidents :=
       Some {| incidents := Some [outage "resolved" [update_c; update_b]] |} |}.

(** A monitor that tracks incident "1" and the component "x". *)
Definition tracking_api : Cli.monitor :=
  Cli.set_component_names
    (Cli.set_component_statuses tracking_outage {[ "x" := "operational" ]})
    {[ "x" := "API" ]}.

(** * Properties *)

(** ** The [for] loop *)

Section ForEach.
Context {S E A : Type} (body : A → bool → S → outcome S E).

Lemma for_each_app (l1 l2 : list A) (c : bool) (st : S) :
  for_each body (l1 ++ l2) c st =
    let o1 := for_each body l1 c st in
    match out_result o1 with
    | Ok c' => after_events (out_events o1) (for_each body l2 c' (out_state o1))
    | Raise _ => o1
    end.
Proof.
  revert c st. induction l1 as [|x l1 IH]; intros c st; simpl.
  - by destruct (for_each body l2 c st).
  - destruct (body x c st) as [st1 evs1 [c1|e]] eqn:Hb; simpl; [|done].
    rewrite IH. simpl.
    destruct (for_each body l1 c1 st1) as [st2 evs2 [c2|e]]; simpl; [|done].
    unfold after_events; simpl. by rewrite app_assoc.
Qed.

Hypothesis body_flag : flag_irrelevant body.

Lemma for_each_flag (l : list A) (c c' : bool) (st : S) :
  out_state (for_each body l c st) = out_state (for_each body l c' st)
  ∧ out_events (for_each body l c st) = out_events (for_each body l c' st)
  ∧ is_ok (out_result (for_each body l c st)) = is_ok (out_result (for_each body l c' st)).
Proof.
  revert c c' st. induction l as [|x l IH]; intros c c' st; simpl; [done|].
  destruct (body_flag x c c' st) as (Hs & He & Hr).
  destruct (body x c st) as [st1 evs1 [c1|e1]], (body x c' st) as [st2 evs2 [c2|e2]];
    simpl in *; subst; try done.
  destruct (IH c1 c2 st2) as (Hs' & He' & Hr'). by rewrite Hs', He', Hr'.
Qed.

(** Processing [pre ++ x :: post]: when [pre] and [x] complete, what the
    loop prints is what [pre] printed, then what [x] printed, then what
    [post] prints from the state [x] left. *)
Lemma for_each_split (pre post : list A) (x : A) (c cx cp : bool) (st : S) :
  let o1 := for_each body pre c st in
  let o2 := body x cx (out_state o1) in
  let o3 := for_each body post cp (out_state o2) in
  let o := for_each body (pre ++ x :: post) c st in
  is_ok (out_result o1) = true →
  is_ok (out_result o2) = true →
  out_events o = out_events o1 ++ out_events o2 ++ out_events o3
  ∧ out_state o = out_state o3
  ∧ is_ok (out_result o) = is_ok (out_result o3).
Proof.
  intros o1 o2 o3 o Hok1 Hok2. subst o. rewrite for_each_app. fold o1. simpl.
  destruct (out_result o1) as [c1|] eqn:Hr1; [|done]. simpl.
  destruct (body_flag x c1 cx (out_state o1)) as (Hs & He & Hr). fold o2 in Hs, He, Hr.
  destruct (body x c1 (out_state o1)) as [st2 evs2 [c2|e2]] eqn:Hb;
    simpl in *; [|congruence].
  subst o3. rewrite <- Hs, <- He.
  destruct (for_each_flag post c2 cp st2) as (Hs' & He' & Hr').
  by rewrite Hs', He', Hr'.
Qed.

(** A raising element stops the loop: nothing after it is processed. *)
Lemma for_each_raise (pre post : list A) (x : A) (c : bool) (st : S) :
  let o1 := for_each body pre c st in
  is_ok (out_result o1) = true →
  (∀ cx, is_ok (out_result (body x cx (out_state o1))) = false) →
  is_ok (out_result (for_each body (pre ++ x :: post) c st)) = false.
Proof.
  intros o1 Hok1 Hx. rewrite for_each_app. fold o1.
  destruct (out_result o1) as [c1|] eqn:Hr1; [|done]. simpl. rewrite Hr1.
  specialize (Hx c1).
  by destruct (body x c1 (out_state o1)) as [st2 evs2 [c2|e2]].
Qed.
End ForEach.

(** ** Reading fields *)

Lemma getitem_Some (d : dict) (k v : string) : d !! k = Some v → getitem d k = Ok v.
Proof. intros Hk. unfold getitem. by rewrite Hk. Qed.

Lemma getitem_None (d : dict) (k : string) : d !! k = None → getitem d k = Raise (KeyError k).
Proof. intros Hk. unfold getitem. by rewrite Hk. Qed.

Lemma get_Some (d : dict) (k v dflt : string) : d !! k = Some v → get d k dflt = v.
Proof. intros Hk. unfold get. by rewrite Hk. Qed.

Lemma get_None (d : dict) (k dflt : string) : d !! k = None → get d k dflt = dflt.
Proof. intros Hk. unfold get. by rewrite Hk. Qed.

(** ** The polling interval *)

Lemma is_active_spec (v : Cli.incident_record) :
  Cli.is_active v = true ↔ Cli.status v ≠ "resolved" ∧ Cli.status v ≠ "postmortem".
Proof.
  unfold Cli.is_active. rewrite negb_true_iff, orb_false_iff, !String.eqb_neq. done.
Qed.

Lemma has_active_spec (m : gmap string Cli.incident_record) :
  existsb (λ kv, Cli.is_active kv.2) (map_to_list m) = true
  ↔ ∃ iid v, m !! iid = Some v ∧ Cli.status v ≠ "resolved" ∧ Cli.status v ≠ "postmortem".
Proof.
  rewrite existsb_exists. split.
  - intros [[iid v] [Hin Hact]]. exists iid, v. split.
    + by apply elem_of_map_to_list, list_elem_of_In.
    + by apply is_active_spec.
  - intros (iid & v & Hm & Hact). exists (iid, v). split.
    + by apply list_elem_of_In, elem_of_map_to_list.
    + by apply is_active_spec.
Qed.

(** C7. [get_interval] returns the fixed interval whenever one is
    configured.  Without one it returns the active interval, 15, exactly
    when some tracked incident has a stored status other than "resolved" and
    "postmortem", and the calm interval, 60, exactly when there is none; it is
    a function of the state alone, so it changes nothing and gives the same
    answer until the state changes; on the initial state it returns 60. *)
Theorem get_interval_spec (st : Cli.monitor) :
  let some_active :=
    ∃ iid v, Cli.known_incidents st !! iid = Some v
             ∧ Cli.status v ≠ "resolved" ∧ Cli.status v ≠ "postmortem" in
  (∀ i, Cli.interval st = Some i → Cli.get_interval st = i)
  ∧ (Cli.interval st = None →
       (Cli.get_interval st = 15 ↔ some_active)
       ∧ (Cli.get_interval st = 60 ↔ ¬ some_active)
       ∧ (Cli.known_incidents st = ∅ → Cli.get_interval st = 60))
  ∧ Cli.get_interval (Cli.init None) = 60.
Proof.
  intros some_active. split; [|split].
  - intros i Hi. unfold Cli.get_interval. by rewrite Hi.
  - intros Hnone. unfold Cli.get_interval. rewrite Hnone.
    pose proof (has_active_spec (Cli.known_incidents st)) as Hspec.
    fold some_active in Hspec.
    destruct (existsb _ _) eqn:Hex; unfold Cli.ACTIVE_INTERVAL, Cli.CALM_INTERVAL.
    + assert (some_active) as Hact by by apply Hspec.
      split; [|split]; [done| |].
      * split; [done|]. intros Hn. by destruct Hn.
      * intros Hempty. destruct Hact as (iid & v & Hv & _).
        rewrite Hempty, lookup_empty in Hv. done.
    + assert (¬ some_active) as Hact.
      { intros Hact. apply Hspec in Hact. done. }
      split; [|split]; [|done|done].
      split; [done|]. intros Hn. by destruct Hact.
  - reflexivity.
Qed.

(** ** [process_summary] *)

(** The loop body on a descriptor that has its three fields. *)
Lemma process_component_complete (comp : dict) (c : bool) (st : Cli.monitor)
    (cid name status : string) :
  comp !! "id" = Some cid → comp !! "name" = Some name → comp !! "status" = Some status →
  Cli.process_component comp c st =
    let st' := Cli.set_component_statuses
                 (Cli.set_component_names st (<[cid := name]> (Cli.component_names st)))
                 (<[cid := status]> (Cli.component_statuses st)) in
    match Cli.component_statuses st !! cid with
    | Some old =>
        if decide (old ≠ status)
        then returned st' [Cli.ComponentStatusChange name old status] true
        else returned st' [] c
    | None => returned st' [] c
    end.
Proof.
  intros Hid Hname Hstatus. unfold Cli.process_component.
  rewrite (getitem_Some _ _ _ Hid), (getitem_Some _ _ _ Hname),
    (getitem_Some _ _ _ Hstatus). simpl.
  destruct (Cli.component_statuses st !! cid) as [old|]; [|done].
  by destruct (decide (old ≠ status)).
Qed.

(** The loop body on a descriptor that lacks a field. *)
Lemma process_component_incomplete (comp : dict) (c : bool) (st : Cli.monitor) :
  ¬ component_complete comp →
  ∃ k, Cli.process_component comp c st = raised st [] (KeyError k).
Proof.
  intros Hinc. unfold Cli.process_component, getitem.
  destruct (comp !! "id") as [cid|] eqn:Hid; simpl; [|by eexists].
  destruct (comp !! "name") as [name|] eqn:Hname; simpl; [|by eexists].
  destruct (comp !! "status") as [status|] eqn:Hstatus; simpl; [|by eexists].
  destruct Hinc. unfold component_complete. by rewrite Hid, Hname, Hstatus.
Qed.

Lemma process_component_flag : flag_irrelevant Cli.process_component.
Proof.
  intros comp c c' st. unfold Cli.process_component.
  destruct (_ ≫= _) as [[[cid name] status]|e]; [|done]. simpl.
  destruct (Cli.component_statuses st !! cid) as [old|]; [|done].
  by destruct (decide (old ≠ status)).
Qed.

Lemma process_components_ok (comps : list dict) (c : bool) (st : Cli.monitor) :
  Forall component_complete comps →
  is_ok (out_result (for_each Cli.process_component comps c st)) = true.
Proof.
  intros Hall. revert c st. induction Hall as [|comp comps Hc _ IH]; intros c st; [done|].
  destruct Hc as ([cid Hid] & [name Hname] & [status Hstatus]). simpl.
  rewrite (process_component_complete _ _ _ _ _ _ Hid Hname Hstatus). simpl.
  destruct (Cli.component_statuses st !! cid) as [old|]; simpl; [|apply IH].
  destruct (decide (old ≠ status)); simpl; apply IH.
Qed.

(** C3. A descriptor of a summary that carries its three fields, reached
    after the descriptors before it were processed, prints a
    "COMPONENT STATUS CHANGE" notification exactly when a status is recorded
    for its ID and differs from its own: then it prints one notification,
    with the recorded status, its own status and its own name.  With no
    recorded status, or with the same status, it prints nothing.  Either way
    its status and name are recorded, and the notifications of the call are
    those of the descriptors before it, then its own, then those of the
    descriptors after it. *)
Theorem process_summary_change_events
    (pre post : list dict) (comp : dict) (st : Cli.monitor) (cid name status : string) :
  let o1 := Cli.process_summary {| components := Some pre |} st in
  let o2 := Cli.process_component comp false (out_state o1) in
  let o3 := Cli.process_summary {| components := Some post |} (out_state o2) in
  let o := Cli.process_summary {| components := Some (pre ++ comp :: post) |} st in
  let prior := Cli.component_statuses (out_state o1) !! cid in
  is_ok (out_result o1) = true →
  comp !! "id" = Some cid → comp !! "name" = Some name → comp !! "status" = Some status →
  (out_events o2 ≠ [] ↔ ∃ old, prior = Some old ∧ old ≠ status)
  ∧ (∀ old, prior = Some old → old ≠ status →
       out_events o2 = [Cli.ComponentStatusChange name old status])
  ∧ (prior = None → out_events o2 = [])
  ∧ (prior = Some status → out_events o2 = [])
  ∧ is_ok (out_result o2) = true
  ∧ Cli.component_statuses (out_state o2) !! cid = Some status
  ∧ Cli.component_names (out_state o2) !! cid = Some name
  ∧ out_events o = out_events o1 ++ out_events o2 ++ out_events o3
  ∧ out_state o = out_state o3.
Proof.
  intros o1 o2 o3 o prior Hok1 Hid Hname Hstatus.
  pose proof (for_each_split Cli.process_component process_component_flag
                pre post comp false false false st Hok1) as Hsplit.
  fold o1 in Hsplit. fold o2 in Hsplit.
  assert (o2 = Cli.process_component comp false (out_state o1)) as Ho2 by done.
  rewrite (process_component_complete _ _ _ _ _ _ Hid Hname Hstatus) in Ho2.
  fold prior in Ho2. simpl in Ho2.
  assert (is_ok (out_result o2) = true
          ∧ Cli.component_statuses (out_state o2) !! cid = Some status
          ∧ Cli.component_names (out_state o2) !! cid = Some name) as (Hok2 & Hst & Hnm).
  { rewrite Ho2. destruct prior as [old|]; [destruct (decide (old ≠ status))|];
      simpl; by rewrite !lookup_insert_eq. }
  destruct (Hsplit Hok2) as (Hev & Hstate & _).
  repeat split; try done.
  - intros Hne. rewrite Ho2 in Hne. destruct prior as [old|]; [|done].
    destruct (decide (old ≠ status)); [by exists old|done].
  - intros (old & Hold & Hdiff). rewrite Ho2, Hold.
    by destruct (decide (old ≠ status)).
  - intros old Hold Hdiff. rewrite Ho2, Hold. by destruct (decide (old ≠ status)).
  - intros Hnone. by rewrite Ho2, Hnone.
  - intros Hsame. rewrite Ho2, Hsame. by destruct (decide (status ≠ status)).
Qed.

Lemma process_summary_change_events_witness :
  out_events (Cli.process_summary
                {| components := Some [api_operational; api_major_outage] |} (Cli.init None))
  = [Cli.ComponentStatusChange "API" "operational" "major_outage"].
Proof.
  pose proof (process_summary_change_events [api_operational] [] api_major_outage
                (Cli.init None) "x" "API" "major_outage") as Hthm.
  destruct Hthm as (_ & Hchanged & _ & _ & _ & _ & _ & Hevents & _);
    [reflexivity | reflexivity | reflexivity | reflexivity |].
  etrans; [exact Hevents|].
  rewrite (Hchanged "operational"); [reflexivity | reflexivity | discriminate].
Defined.

(** A descriptor with another ID leaves the recorded status of [cid] alone,
    whether it completes or raises. *)
Lemma process_component_frame (comp : dict) (c : bool) (st : Cli.monitor) (cid : string) :
  comp !! "id" ≠ Some cid →
  Cli.component_statuses (out_state (Cli.process_component comp c st)) !! cid
  = Cli.component_statuses st !! cid.
Proof.
  intros Hne. unfold Cli.process_component, getitem.
  destruct (comp !! "id") as [cid'|] eqn:Hid; simpl; [|done].
  destruct (comp !! "name") as [name|]; simpl; [|done].
  destruct (comp !! "status") as [status|]; simpl; [|done].
  assert (cid' ≠ cid) by congruence.
  destruct (Cli.component_statuses st !! cid') as [old|];
    [destruct (decide (old ≠ status))|]; simpl; by rewrite lookup_insert_ne.
Qed.

Lemma process_components_frame (comps : list dict) (c : bool) (st : Cli.monitor)
    (cid : string) :
  Forall (λ comp, comp !! "id" ≠ Some cid) comps →
  Cli.component_statuses (out_state (for_each Cli.process_component comps c st)) !! cid
  = Cli.component_statuses st !! cid.
Proof.
  intros Hall. revert c st. induction Hall as [|comp comps Hc _ IH]; intros c st; [done|].
  simpl. pose proof (process_component_frame comp c st cid Hc) as Hframe.
  destruct (Cli.process_component comp c st) as [st1 evs1 [c1|e1]]; simpl in *; [|done].
  by rewrite IH.
Qed.

(** C10. When one summary lists the same component ID twice with two
    different statuses, and no status was recorded for that ID before the
    call, the first occurrence prints nothing and the second prints a
    "COMPONENT STATUS CHANGE" notification from the status of the first to
    its own: the comparison is against the status stored earlier in the same
    call. *)
Theorem process_summary_repeated_id
    (pre mid post : list dict) (c1 c2 : dict) (st : Cli.monitor)
    (cid n1 s1 n2 s2 : string) :
  let o1 := Cli.process_summary {| components := Some pre |} st in
  let o2 := Cli.process_component c1 false (out_state o1) in
  let o3 := Cli.process_summary {| components := Some (pre ++ c1 :: mid) |} st in
  let o4 := Cli.process_component c2 false (out_state o3) in
  let o5 := Cli.process_summary {| components := Some post |} (out_state o4) in
  let o := Cli.process_summary
             {| components := Some ((pre ++ c1 :: mid) ++ c2 :: post) |} st in
  Cli.component_statuses st !! cid = None →
  Forall component_complete pre → Forall (λ comp, comp !! "id" ≠ Some cid) pre →
  Forall component_complete mid → Forall (λ comp, comp !! "id" ≠ Some cid) mid →
  c1 !! "id" = Some cid → c1 !! "name" = Some n1 → c1 !! "status" = Some s1 →
  c2 !! "id" = Some cid → c2 !! "name" = Some n2 → c2 !! "status" = Some s2 →
  s1 ≠ s2 →
  out_events o2 = []
  ∧ out_events o4 = [Cli.ComponentStatusChange n2 s1 s2]
  ∧ out_events o = out_events o3 ++ [Cli.ComponentStatusChange n2 s1 s2] ++ out_events o5
  ∧ out_state o = out_state o5.
Proof.
  intros o1 o2 o3 o4 o5 o Hfresh Hpre Hpre_id Hmid Hmid_id
    Hid1 Hname1 Hstatus1 Hid2 Hname2 Hstatus2 Hdiff.
  unfold Cli.process_summary in o1, o3, o5, o. simpl in o1, o3, o5, o.
  assert (is_ok (out_result o1) = true) as Hok1 by by apply process_components_ok.
  assert (Cli.component_statuses (out_state o1) !! cid = None) as Hprior1.
  { unfold o1. by rewrite process_components_frame. }
  assert (o2 = Cli.process_component c1 false (out_state o1)) as Ho2 by done.
  rewrite (process_component_complete _ _ _ _ _ _ Hid1 Hname1 Hstatus1) in Ho2.
  rewrite Hprior1 in Ho2. simpl in Ho2.
  assert (is_ok (out_result o3) = true) as Hok3.
  { apply process_components_ok. apply Forall_app. split; [done|].
    constructor; [|done]. unfold component_complete. by rewrite Hid1, Hname1, Hstatus1. }
  assert (Cli.component_statuses (out_state o3) !! cid = Some s1) as Hprior3.
  { pose proof (for_each_split Cli.process_component process_component_flag
                  pre mid c1 false false false st Hok1) as Hsplit.
    fold o1 in Hsplit. fold o2 in Hsplit.
    destruct Hsplit as (_ & Hstate & _); [by rewrite Ho2|].
    unfold o3. rewrite Hstate.
    rewrite process_components_frame by done.
    rewrite Ho2. simpl. by rewrite lookup_insert_eq. }
  assert (o4 = Cli.process_component c2 false (out_state o3)) as Ho4 by done.
  rewrite (process_component_complete _ _ _ _ _ _ Hid2 Hname2 Hstatus2) in Ho4.
  rewrite Hprior3 in Ho4. simpl in Ho4.
  destruct (decide (s1 ≠ s2)); [|done].
  pose proof (for_each_split Cli.process_component process_component_flag
                (pre ++ c1 :: mid) post c2 false false true st Hok3) as Hsplit.
  fold o3 in Hsplit. fold o4 in Hsplit.
  destruct Hsplit as (Hev & Hstate & _); [by rewrite Ho4|].
  destruct (for_each_flag Cli.process_component process_component_flag
              post true false (out_state o4)) as (Hs5 & He5 & _).
  split; [by rewrite Ho2|]. split; [by rewrite Ho4|]. split.
  - unfold o. rewrite Hev, He5. fold o5. do 2 f_equal. by rewrite Ho4.
  - unfold o. by rewrite Hstate, Hs5.
Qed.

Lemma process_summary_repeated_id_witness :
  out_events (Cli.process_summary
                {| components := Some [api_major_outage; api_operational] |} (Cli.init None))
  = [Cli.ComponentStatusChange "API" "major_outage" "operational"].
Proof.
  pose proof (process_summary_repeated_id [] [] [] api_major_outage api_operational
                (Cli.init None) "x" "API" "major_outage" "API" "operational") as Hthm.
  destruct Hthm as (_ & _ & Hevents & _);
    [reflexivity | constructor | constructor | constructor | constructor
    | reflexivity | reflexivity | reflexivity | reflexivity | reflexivity | reflexivity
    | discriminate |].
  etrans; [exact Hevents|]. reflexivity.
Defined.

(** ** Update IDs, new updates and their order *)

Lemma update_id_set_ok (updates : list dict) :
  Forall (λ u, is_Some (u !! "id")) updates → ∃ ids, update_id_set updates = Ok ids.
Proof.
  induction 1 as [|u updates [i Hi] _ [ids IH]]; simpl; [by eexists|].
  rewrite (getitem_Some _ _ _ Hi), IH. simpl. by eexists.
Qed.

Lemma update_id_set_has_ids (updates : list dict) (ids : gset string) :
  update_id_set updates = Ok ids → Forall (λ u, is_Some (u !! "id")) updates.
Proof.
  revert ids. induction updates as [|u updates IH]; intros ids Hids; [done|].
  simpl in Hids. unfold getitem in Hids.
  destruct (u !! "id") as [i|] eqn:Hi; simpl in Hids; [|done].
  destruct (update_id_set updates) as [ids'|]; simpl in Hids; [|done].
  constructor; [by rewrite Hi | by eapply IH].
Qed.

Lemma update_id_set_raises (updates : list dict) :
  ¬ Forall (λ u, is_Some (u !! "id")) updates →
  update_id_set updates = Raise (KeyError "id").
Proof.
  induction updates as [|u updates IH]; intros Hnot; [by destruct Hnot|].
  simpl. unfold getitem. destruct (u !! "id") as [i|] eqn:Hi; simpl; [|done].
  rewrite IH; [done|]. intros Hall. apply Hnot. constructor; [by rewrite Hi|done].
Qed.

Lemma update_id_set_elem (updates : list dict) (ids : gset string) :
  update_id_set updates = Ok ids →
  ∀ i, i ∈ ids ↔ ∃ u, u ∈ updates ∧ u !! "id" = Some i.
Proof.
  revert ids. induction updates as [|u updates IH]; intros ids Hids i.
  - simpl in Hids. injection Hids as <-. split; [set_solver|].
    intros (u & Hu & _). by apply elem_of_nil in Hu.
  - simpl in Hids. unfold getitem in Hids.
    destruct (u !! "id") as [j|] eqn:Hj; simpl in Hids; [|done].
    destruct (update_id_set updates) as [ids'|] eqn:Hids'; simpl in Hids; [|done].
    injection Hids as <-. rewrite elem_of_union, elem_of_singleton, (IH ids' eq_refl i).
    split.
    + intros [->|(u' & Hu' & Hi)]; [exists u | exists u']; split;
        try done; [by left | by right].
    + intros (u' & Hu' & Hi). apply elem_of_cons in Hu' as [->|Hu'].
      * left. congruence.
      * right. by exists u'.
Qed.

(** The updates kept by [u["id"] in new_ids] are those whose ID is not in
    the stored set. *)
Lemma filter_id_in_is_new (updates : list dict) (ids seen : gset string) :
  update_id_set updates = Ok ids →
  List.filter (id_in (ids ∖ seen)) updates = List.filter (is_new seen) updates.
Proof.
  intros Hids.
  assert (∀ u i, u ∈ updates → u !! "id" = Some i → i ∈ ids) as Helem.
  { intros u i Hu Hi. apply (update_id_set_elem _ _ Hids). by exists u. }
  clear Hids. induction updates as [|u updates IH]; [done|]. simpl.
  rewrite IH.
  2:{ intros u' i Hu' Hi. apply (Helem u'); [by right|done]. }
  assert (id_in (ids ∖ seen) u = is_new seen u) as ->; [|done].
  unfold id_in, is_new. destruct (u !! "id") as [i|] eqn:Hi; [|done].
  assert (i ∈ ids) as Hin. { apply (Helem u); [by left|done]. }
  apply bool_decide_ext. rewrite elem_of_difference. tauto.
Qed.

Lemma filter_none {A : Type} (f : A → bool) (l : list A) :
  (∀ x, In x l → f x = false) → List.filter f l = [].
Proof.
  induction l as [|x l IH]; intros Hall; [done|]. simpl.
  rewrite (Hall x) by by left. apply IH. intros y Hy. apply Hall. by right.
Qed.

(** [new_ids] is empty exactly when no delivered update is new. *)
Lemma new_ids_empty (updates : list dict) (ids seen : gset string) :
  update_id_set updates = Ok ids →
  ids ∖ seen = ∅ ↔ List.filter (is_new seen) updates = [].
Proof.
  intros Hids. pose proof (update_id_set_elem _ _ Hids) as Helem.
  pose proof (update_id_set_has_ids _ _ Hids) as Hhas. split.
  - intros Hempty. apply filter_none. intros u Hu.
    unfold is_new. destruct (u !! "id") as [i|] eqn:Hi; [|done].
    apply bool_decide_eq_false. intros Hnew.
    assert (i ∈ ids ∖ seen) as Hin.
    { apply elem_of_difference. split; [|done]. apply Helem. exists u.
      by rewrite <- list_elem_of_In in Hu. }
    rewrite Hempty in Hin. set_solver.
  - intros Hnil. apply set_eq. intros i. split; [|set_solver].
    intros [Hin Hnot]%elem_of_difference. apply Helem in Hin as (u & Hu & Hi).
    assert (In u (List.filter (is_new seen) updates)) as Hf.
    { apply filter_In. split; [by apply list_elem_of_In|].
      unfold is_new. rewrite Hi. by apply bool_decide_eq_true. }
    rewrite Hnil in Hf. done.
Qed.

(** *** Python's order on strings *)

Lemma ascii_compare_lt_trans (a b c : ascii) :
  Ascii.compare a b = Lt → Ascii.compare b c = Lt → Ascii.compare a c = Lt.
Proof.
  unfold Ascii.compare. rewrite !N.compare_lt_iff. apply N.lt_trans.
Qed.

Lemma string_compare_lt_trans (s1 s2 s3 : string) :
  String.compare s1 s2 = Lt → String.compare s2 s3 = Lt → String.compare s1 s3 = Lt.
Proof.
  revert s2 s3. induction s1 as [|a s1 IH]; intros [|b s2] [|c s3]; simpl; try done.
  destruct (Ascii.compare a b) eqn:Hab; [| |done].
  - apply Ascii.compare_eq_iff in Hab as ->.
    destruct (Ascii.compare b c); [apply IH|done|done].
  - intros _. destruct (Ascii.compare b c) eqn:Hbc; [| |done]; intros _.
    + apply Ascii.compare_eq_iff in Hbc as <-. by rewrite Hab.
    + by rewrite (ascii_compare_lt_trans a b c).
Qed.

Lemma string_compare_refl (s : string) : String.compare s s = Eq.
Proof.
  induction s as [|a s IH]; [done|]. simpl.
  unfold Ascii.compare. by rewrite N.compare_refl.
Qed.

Lemma string_leb_ltb (s1 s2 : string) : String.leb s1 s2 = negb (String.ltb s2 s1).
Proof.
  unfold String.leb, String.ltb. rewrite (String.compare_antisym s1 s2).
  by destruct (String.compare s2 s1).
Qed.

Lemma string_ltb_leb (s1 s2 : string) : String.ltb s1 s2 = true → String.leb s1 s2 = true.
Proof. unfold String.leb, String.ltb. by destruct (String.compare s1 s2). Qed.

Lemma string_leb_trans (s1 s2 s3 : string) :
  String.leb s1 s2 = true → String.leb s2 s3 = true → String.leb s1 s3 = true.
Proof.
  unfold String.leb.
  destruct (String.compare s1 s2) eqn:H12; [| |done].
  - apply String.compare_eq_iff in H12 as ->. done.
  - destruct (String.compare s2 s3) eqn:H23; [| |done]; intros _ _.
    + apply String.compare_eq_iff in H23 as <-. by rewrite H12.
    + by rewrite (string_compare_lt_trans s1 s2 s3).
Qed.

(** *** [sorted(..., reverse=True)] *)

Section SortedReverse.
Context {A : Type} (key : A → string).

Lemma insert_reverse_perm (x : A) (l : list A) : insert_reverse key x l ≡ₚ x :: l.
Proof.
  induction l as [|y l IH]; [done|]. simpl.
  destruct (String.ltb (key x) (key y)); [|done].
  rewrite IH. apply Permutation_swap.
Qed.

Lemma sorted_reverse_perm (l : list A) : sorted_reverse key l ≡ₚ l.
Proof.
  induction l as [|x l IH]; [done|]. unfold sorted_reverse in *. simpl.
  by rewrite insert_reverse_perm, IH.
Qed.

Lemma key_ge_trans (u v w : A) : key_ge key u v → key_ge key v w → key_ge key u w.
Proof. unfold key_ge. intros Huv Hvw. by apply (string_leb_trans _ (key v)). Qed.

Lemma insert_reverse_sorted (x : A) (l : list A) :
  StronglySorted (key_ge key) l → StronglySorted (key_ge key) (insert_reverse key x l).
Proof.
  induction 1 as [|y l Hsorted IH Hall]; simpl.
  - by repeat constructor.
  - destruct (String.ltb (key x) (key y)) eqn:Hlt.
    + constructor; [done|]. rewrite insert_reverse_perm.
      constructor; [|done]. unfold key_ge. by apply string_ltb_leb.
    + assert (key_ge key x y) as Hxy.
      { unfold key_ge. by rewrite string_leb_ltb, Hlt. }
      constructor; [by constructor|]. constructor; [done|].
      eapply Forall_impl; [exact Hall|]. intros z Hyz. by eapply key_ge_trans.
Qed.

Lemma sorted_reverse_sorted (l : list A) :
  StronglySorted (key_ge key) (sorted_reverse key l).
Proof.
  induction l as [|x l IH]; [constructor|]. by apply insert_reverse_sorted.
Qed.

(** In a descending list an element with a larger key comes first. *)
Lemma sorted_precedes (l : list A) (u v : A) :
  StronglySorted (key_ge key) l → u ∈ l → v ∈ l →
  String.ltb (key u) (key v) = true →
  ∃ l1 l2 l3, l = l1 ++ v :: l2 ++ u :: l3.
Proof.
  intros Hsorted Hu Hv Hlt.
  apply list_elem_of_split in Hv as (l1 & l' & ->).
  assert (u ∈ l') as Hu'.
  { apply elem_of_app in Hu as [Hu|Hu].
    - pose proof (StronglySorted_app_1_elem_of _ _ _ u v Hsorted Hu) as Hge.
      unfold key_ge in Hge. rewrite string_leb_ltb, Hlt in Hge.
      by (discriminate Hge; by left).
    - apply elem_of_cons in Hu as [->|Hu]; [|done].
      unfold String.ltb in Hlt. by rewrite string_compare_refl in Hlt. }
  apply list_elem_of_split in Hu' as (l2 & l3 & ->). by exists l1, l2, l3.
Qed.
End SortedReverse.

(** ** [process_incidents] *)

Section CliIncidents.
Context `{DateTimeLib}.

Lemma print_update_flag (inc : incident) : flag_irrelevant (Cli.print_update inc).
Proof.
  intros u c c' st. unfold Cli.print_update. cbv zeta.
  by destruct (_ ≫= _) as [[time name]|e].
Qed.

Lemma print_update_state (inc : incident) (u : dict) (c : bool) (st : Cli.monitor) :
  out_state (Cli.print_update inc u c st) = st.
Proof. unfold Cli.print_update. cbv zeta. by destruct (_ ≫= _) as [[time name]|e]. Qed.

Lemma print_updates_state (inc : incident) (us : list dict) (c : bool) (st : Cli.monitor) :
  out_state (for_each (Cli.print_update inc) us c st) = st.
Proof.
  revert c. induction us as [|u us IH]; intros c; [done|]. simpl.
  pose proof (print_update_state inc u c st) as Hu.
  destruct (Cli.print_update inc u c st) as [st1 evs1 [c1|e1]]; simpl in *; subst; [|done].
  apply IH.
Qed.

Lemma print_updates_ok (inc : incident) (name : string) (us : list dict) (c : bool)
    (st : Cli.monitor) :
  inc_fields inc !! "name" = Some name →
  Forall (λ u, is_ok (fmt_time (created_at_key u)) = true) us →
  ∃ evs, for_each (Cli.print_update inc) us c st
         = returned st evs (match us with [] => c | _ => true end)
         ∧ Forall2 (update_event_of name) us evs.
Proof.
  intros Hname Hall. revert c. induction Hall as [|u us Hu _ IH]; intros c.
  - exists []. by split.
  - destruct (fmt_time (created_at_key u)) as [time|] eqn:Htime; [|done].
    destruct (IH true) as (evs & Hloop & Hevs).
    exists (Cli.IncidentUpdate name (get u "status" "unknown") (get u "body" "") time :: evs).
    split.
    + assert (Cli.print_update inc u c st
              = returned st [Cli.IncidentUpdate name (get u "status" "unknown")
                               (get u "body" "") time] true) as Hbody.
      { unfold Cli.print_update. unfold created_at_key in Htime.
        by rewrite Htime, (getitem_Some _ _ _ Hname). }
      simpl. rewrite Hbody. simpl. rewrite Hloop.
      unfold after_events, returned. simpl. by destruct us.
    + constructor; [|done]. by exists time.
Qed.

(** An incident ID seen for the first time. *)
Lemma process_incident_unknown (suppress : bool) (inc : incident) (c : bool)
    (st : Cli.monitor) (iid : string) (ids : gset string) :
  inc_fields inc !! "id" = Some iid →
  update_id_set (default [] (incident_updates inc)) = Ok ids →
  Cli.known_incidents st !! iid = None →
  Cli.process_incident suppress inc c st =
    let st' := Cli.set_known_incidents st
                 (<[iid := stored_record inc ids]> (Cli.known_incidents st)) in
    if suppress then returned st' [] c
    else
      match getitem (inc_fields inc) "name" with
      | Raise e => raised st' [] e
      | Ok name =>
          returned st'
            [Cli.NewIncident name
               (get (inc_fields inc) "impact" "none")
               (get (inc_fields inc) "status" "unknown")
               (match default [] (incident_updates inc) with
                | u :: _ => get u "body" ""
                | [] => ""
                end)] true
      end.
Proof.
  intros Hid Hids Hknown. unfold Cli.process_incident.
  rewrite (getitem_Some _ _ _ Hid), Hids. simpl. by rewrite Hknown.
Qed.

(** An incident ID that is already tracked. *)
Lemma process_incident_known (suppress : bool) (inc : incident) (c : bool)
    (st : Cli.monitor) (iid : string) (ids : gset string) (known : Cli.incident_record) :
  inc_fields inc !! "id" = Some iid →
  update_id_set (default [] (incident_updates inc)) = Ok ids →
  Cli.known_incidents st !! iid = Some known →
  Cli.process_incident suppress inc c st =
    let new_updates :=
      sorted_reverse created_at_key
        (List.filter (is_new (Cli.seen_update_ids known))
           (default [] (incident_updates inc))) in
    match new_updates with
    | [] => returned st [] c
    | _ =>
        let o := for_each (Cli.print_update inc) new_updates c st in
        match out_result o with
        | Raise _ => o
        | Ok c' =>
            returned (Cli.set_known_incidents st
                        (<[iid := stored_record inc ids]> (Cli.known_incidents st)))
              (out_events o) c'
        end
    end.
Proof.
  intros Hid Hids Hknown. unfold Cli.process_incident.
  rewrite (getitem_Some _ _ _ Hid), Hids. simpl. rewrite Hknown.
  rewrite (filter_id_in_is_new _ _ _ Hids).
  pose proof (new_ids_empty _ _ (Cli.seen_update_ids known) Hids) as Hempty.
  destruct (decide (ids ∖ Cli.seen_update_ids known = ∅)) as [He|Hne].
  - apply Hempty in He. by rewrite He.
  - destruct (List.filter _ _) as [|u us] eqn:Hf; [by destruct Hne; apply Hempty|].
    destruct (sorted_reverse created_at_key (u :: us)) as [|v vs] eqn:Hs; [|done].
    pose proof (sorted_reverse_perm created_at_key (u :: us)) as Hperm.
    rewrite Hs in Hperm. by apply Permutation_nil_cons in Hperm.
Qed.

(** A descriptor that lacks an ["id"], or one of whose updates does. *)
Lemma process_incident_no_id (suppress : bool) (inc : incident) (c : bool)
    (st : Cli.monitor) :
  inc_fields inc !! "id" = None
  ∨ ¬ Forall (λ u, is_Some (u !! "id")) (default [] (incident_updates inc)) →
  Cli.process_incident suppress inc c st = raised st [] (KeyError "id").
Proof.
  intros Hbad. unfold Cli.process_incident, getitem.
  destruct (inc_fields inc !! "id") as [iid|] eqn:Hid; simpl; [|done].
  destruct Hbad as [?|Hbad]; [done|]. by rewrite (update_id_set_raises _ Hbad).
Qed.

Lemma process_incident_flag (suppress : bool) :
  flag_irrelevant (Cli.process_incident suppress).
Proof.
  intros inc c c' st. unfold Cli.process_incident.
  destruct (_ ≫= _) as [[iid ids]|e]; [|done]. simpl.
  destruct (Cli.known_incidents st !! iid) as [known|].
  - destruct (decide _); [done|].
    match goal with |- context [for_each _ ?us c st] =>
      destruct (for_each_flag _ (print_update_flag inc) us c c' st) as (Hs & He & Hr);
      destruct (for_each (Cli.print_update inc) us c st) as [st1 evs1 [c1|e1]],
               (for_each (Cli.print_update inc) us c' st) as [st2 evs2 [c2|e2]]
    end; simpl in *; by subst.
  - destruct suppress; [done|]. by destruct (getitem _ _).
Qed.

(** A descriptor with another ID leaves the record of [iid] alone, whether
    it completes or raises. *)
Lemma process_incident_frame (suppress : bool) (inc : incident) (c : bool)
    (st : Cli.monitor) (iid : string) :
  inc_fields inc !! "id" ≠ Some iid →
  Cli.known_incidents (out_state (Cli.process_incident suppress inc c st)) !! iid
  = Cli.known_incidents st !! iid.
Proof.
  intros Hne. unfold Cli.process_incident, getitem.
  destruct (inc_fields inc !! "id") as [iid'|] eqn:Hid; simpl; [|done].
  destruct (update_id_set _) as [ids|]; simpl; [|done].
  assert (iid' ≠ iid) by congruence.
  destruct (Cli.known_incidents st !! iid') as [known|].
  - destruct (decide _); [done|].
    match goal with |- context [for_each _ ?us c st] =>
      pose proof (print_updates_state inc us c st) as Hst;
      destruct (for_each (Cli.print_update inc) us c st) as [st1 evs1 [c1|e1]]
    end; simpl in *; [|by subst]. by rewrite lookup_insert_ne.
  - destruct suppress; [|destruct (inc_fields inc !! "name")]; simpl;
      by rewrite lookup_insert_ne.
Qed.

Lemma process_incidents_frame (suppress : bool) (incs : list incident) (c : bool)
    (st : Cli.monitor) (iid : string) :
  Forall (λ inc, inc_fields inc !! "id" ≠ Some iid) incs →
  Cli.known_incidents
    (out_state (for_each (Cli.process_incident suppress) incs c st)) !! iid
  = Cli.known_incidents st !! iid.
Proof.
  intros Hall. revert c st. induction Hall as [|inc incs Hi _ IH]; intros c st; [done|].
  simpl. pose proof (process_incident_frame suppress inc c st iid Hi) as Hframe.
  destruct (Cli.process_incident suppress inc c st) as [st1 evs1 [c1|e1]];
    simpl in *; [|done].
  by rewrite IH.
Qed.
End CliIncidents.

Section CliIncidentClaims.
Context `{DateTimeLib}.

Lemma process_incidents_split (suppress : bool) (pre post : list incident)
    (inc : incident) (st : Cli.monitor) :
  let o1 := Cli.process_incidents {| incidents := Some pre |} suppress st in
  let o2 := Cli.process_incident suppress inc false (out_state o1) in
  let o3 := Cli.process_incidents {| incidents := Some post |} suppress (out_state o2) in
  let o := Cli.process_incidents {| incidents := Some (pre ++ inc :: post) |} suppress st in
  is_ok (out_result o1) = true →
  is_ok (out_result o2) = true →
  out_events o = out_events o1 ++ out_events o2 ++ out_events o3
  ∧ out_state o = out_state o3
  ∧ is_ok (out_result o) = is_ok (out_result o3).
Proof.
  apply (for_each_split (Cli.process_incident suppress) (process_incident_flag suppress)
           pre post inc false false false st).
Qed.

(** C4. An incident descriptor whose ID is not tracked when it is reached,
    processed with the suppress flag off, prints exactly one "NEW INCIDENT"
    notification.  Its body is the body of the update at index 0 of the
    delivered list, whatever the creation times of the updates are (and the
    empty text when that update has no body or the list is empty); impact
    and status default to "none" and "unknown".  From then on the ID is
    tracked. *)
Theorem process_incidents_new_incident
    (pre post : list incident) (inc : incident) (st : Cli.monitor) (iid name : string) :
  let o1 := Cli.process_incidents {| incidents := Some pre |} false st in
  let o2 := Cli.process_incident false inc false (out_state o1) in
  let o3 := Cli.process_incidents {| incidents := Some post |} false (out_state o2) in
  let o := Cli.process_incidents {| incidents := Some (pre ++ inc :: post) |} false st in
  let updates := default [] (incident_updates inc) in
  is_ok (out_result o1) = true →
  inc_fields inc !! "id" = Some iid →
  inc_fields inc !! "name" = Some name →
  Forall (λ u, is_Some (u !! "id")) updates →
  Cli.known_incidents (out_state o1) !! iid = None →
  ∃ body,
    out_events o2 = [Cli.NewIncident name (get (inc_fields inc) "impact" "none")
                       (get (inc_fields inc) "status" "unknown") body]
    ∧ (∀ u0, updates !! 0%nat = Some u0 → body = get u0 "body" "")
    ∧ (∀ u0 b, updates !! 0%nat = Some u0 → u0 !! "body" = Some b → body = b)
    ∧ (updates = [] → body = "")
    ∧ is_ok (out_result o2) = true
    ∧ is_Some (Cli.known_incidents (out_state o2) !! iid)
    ∧ out_events o = out_events o1 ++ out_events o2 ++ out_events o3
    ∧ out_state o = out_state o3.
Proof.
  intros o1 o2 o3 o updates Hok1 Hid Hname Hids Hunknown.
  destruct (update_id_set_ok _ Hids) as [ids Hset].
  assert (o2 = Cli.process_incident false inc false (out_state o1)) as Ho2 by done.
  rewrite (process_incident_unknown _ _ _ _ _ _ Hid Hset Hunknown) in Ho2.
  rewrite (getitem_Some _ _ _ Hname) in Ho2. simpl in Ho2. fold updates in Ho2.
  assert (is_ok (out_result o2) = true) as Hok2 by by rewrite Ho2.
  destruct (process_incidents_split false pre post inc st Hok1 Hok2) as (Hev & Hst & _).
  exists (match updates with u :: _ => get u "body" "" | [] => "" end).
  split; [by rewrite Ho2|]. split; [|split; [|split]].
  - intros u0 Hu0. destruct updates; by simplify_eq/=.
  - intros u0 b Hu0 Hb. destruct updates; simplify_eq/=. by apply get_Some.
  - by intros ->.
  - split; [done|]. split; [|done].
    rewrite Ho2. simpl. by rewrite lookup_insert_eq.
Qed.

(** C6. An incident descriptor whose ID is not tracked when it is reached,
    processed with the suppress flag on, prints nothing, and a record is
    stored for the ID whose set of seen update IDs holds exactly the IDs of
    the updates delivered with it. *)
Theorem process_incidents_suppressed
    (pre post : list incident) (inc : incident) (st : Cli.monitor) (iid : string) :
  let o1 := Cli.process_incidents {| incidents := Some pre |} true st in
  let o2 := Cli.process_incident true inc false (out_state o1) in
  let o3 := Cli.process_incidents {| incidents := Some post |} true (out_state o2) in
  let o := Cli.process_incidents {| incidents := Some (pre ++ inc :: post) |} true st in
  let updates := default [] (incident_updates inc) in
  is_ok (out_result o1) = true →
  inc_fields inc !! "id" = Some iid →
  Forall (λ u, is_Some (u !! "id")) updates →
  Cli.known_incidents (out_state o1) !! iid = None →
  out_events o2 = []
  ∧ is_ok (out_result o2) = true
  ∧ (∃ record,
       Cli.known_incidents (out_state o2) !! iid = Some record
       ∧ (∀ i, i ∈ Cli.seen_update_ids record ↔ ∃ u, u ∈ updates ∧ u !! "id" = Some i)
       ∧ Cli.status record = get (inc_fields inc) "status" ""
       ∧ Cli.updated_at record = get (inc_fields inc) "updated_at" "")
  ∧ out_events o = out_events o1 ++ out_events o3
  ∧ out_state o = out_state o3.
Proof.
  intros o1 o2 o3 o updates Hok1 Hid Hids Hunknown.
  destruct (update_id_set_ok _ Hids) as [ids Hset].
  assert (o2 = Cli.process_incident true inc false (out_state o1)) as Ho2 by done.
  rewrite (process_incident_unknown _ _ _ _ _ _ Hid Hset Hunknown) in Ho2.
  simpl in Ho2.
  assert (is_ok (out_result o2) = true) as Hok2 by by rewrite Ho2.
  destruct (process_incidents_split true pre post inc st Hok1 Hok2) as (Hev & Hst & _).
  split; [by rewrite Ho2|]. split; [done|]. split; [|split; [|done]].
  - eexists. split; [rewrite Ho2; simpl; by rewrite lookup_insert_eq|].
    split; [|done]. simpl. apply (update_id_set_elem _ _ Hset).
  - etrans; [exact Hev|]. fold o1 o2 o3.
    by replace (out_events o2) with (@nil Cli.event) by by rewrite Ho2.
Qed.

(** C8. A descriptor of a tracked incident, all of whose delivered update
    IDs are already in the stored set, prints nothing and leaves the whole
    state, its own record included, as it found it. *)
Theorem process_incidents_nothing_new
    (suppress : bool) (pre post : list incident) (inc : incident) (st : Cli.monitor)
    (iid : string) (known : Cli.incident_record) :
  let o1 := Cli.process_incidents {| incidents := Some pre |} suppress st in
  let o2 := Cli.process_incident suppress inc false (out_state o1) in
  let o3 := Cli.process_incidents {| incidents := Some post |} suppress (out_state o1) in
  let o := Cli.process_incidents {| incidents := Some (pre ++ inc :: post) |} suppress st in
  let updates := default [] (incident_updates inc) in
  is_ok (out_result o1) = true →
  inc_fields inc !! "id" = Some iid →
  Forall (λ u, ∃ i, u !! "id" = Some i ∧ i ∈ Cli.seen_update_ids known) updates →
  Cli.known_incidents (out_state o1) !! iid = Some known →
  out_events o2 = []
  ∧ out_state o2 = out_state o1
  ∧ is_ok (out_result o2) = true
  ∧ Cli.known_incidents (out_state o2) !! iid = Some known
  ∧ out_events o = out_events o1 ++ out_events o3
  ∧ out_state o = out_state o3.
Proof.
  intros o1 o2 o3 o updates Hok1 Hid Hseen Hknown.
  assert (Forall (λ u, is_Some (u !! "id")) updates) as Hids.
  { eapply Forall_impl; [exact Hseen|]. intros u (i & Hi & _). by rewrite Hi. }
  destruct (update_id_set_ok _ Hids) as [ids Hset].
  assert (o2 = Cli.process_incident suppress inc false (out_state o1)) as Ho2 by done.
  rewrite (process_incident_known _ _ _ _ _ _ _ Hid Hset Hknown) in Ho2.
  fold updates in Ho2.
  rewrite filter_none in Ho2.
  2:{ intros u Hu. rewrite Forall_forall in Hseen.
      destruct (Hseen u) as (i & Hi & Hin); [by apply list_elem_of_In|].
      unfold is_new. rewrite Hi. by apply bool_decide_eq_false; intros ?. }
  simpl in Ho2.
  assert (is_ok (out_result o2) = true) as Hok2 by by rewrite Ho2.
  destruct (process_incidents_split suppress pre post inc st Hok1 Hok2) as (Hev & Hst & _).
  fold o1 o2 in Hev, Hst. rewrite Ho2 in Hev, Hst. simpl in Hev, Hst.
  by rewrite Ho2.
Qed.
(** What a descriptor of a tracked incident with new updates does, given
    that its name is present and the creation times of the new updates
    render. *)
Lemma process_incident_new_updates (suppress : bool) (inc : incident) (c : bool)
    (st : Cli.monitor) (iid name : string) (known : Cli.incident_record) :
  let updates := default [] (incident_updates inc) in
  let new := List.filter (is_new (Cli.seen_update_ids known)) updates in
  inc_fields inc !! "id" = Some iid →
  inc_fields inc !! "name" = Some name →
  Forall (λ u, is_Some (u !! "id")) updates →
  Cli.known_incidents st !! iid = Some known →
  new ≠ [] →
  Forall (λ u, is_ok (fmt_time (created_at_key u)) = true) new →
  ∃ ids evs,
    update_id_set updates = Ok ids
    ∧ Forall2 (update_event_of name) (sorted_reverse created_at_key new) evs
    ∧ Cli.process_incident suppress inc c st =
        returned
          (Cli.set_known_incidents st
             (<[iid := {| Cli.updated_at := get (inc_fields inc) "updated_at" "";
                          Cli.status := get (inc_fields inc) "status" "";
                          Cli.seen_update_ids := ids |}]> (Cli.known_incidents st)))
          evs true.
Proof.
  intros updates new Hid Hname Hids Hknown Hnew Hfmt.
  destruct (update_id_set_ok _ Hids) as [ids Hset].
  rewrite (process_incident_known _ _ _ _ _ _ _ Hid Hset Hknown). fold updates new.
  pose proof (sorted_reverse_perm created_at_key new) as Hperm.
  assert (Forall (λ u, is_ok (fmt_time (created_at_key u)) = true)
            (sorted_reverse created_at_key new)) as Hfmt'.
  { by rewrite Hperm. }
  destruct (print_updates_ok inc name _ c st Hname Hfmt') as (evs & Hloop & Hevs).
  exists ids, evs. split; [done|]. split; [done|].
  destruct (sorted_reverse created_at_key new) as [|v vs] eqn:Hs.
  - by apply Permutation_nil in Hperm.
  - cbv beta iota zeta. by rewrite Hloop.
Qed.

(** C5. A descriptor of a tracked incident that delivers updates whose IDs
    are not in the stored set prints one "INCIDENT UPDATE" notification for
    each of them and nothing else, in descending order of their
    ["created_at"] texts: of two new updates, the one with the larger
    ["created_at"] is notified first. *)
Theorem process_incidents_new_updates
    (suppress : bool) (pre post : list incident) (inc : incident) (st : Cli.monitor)
    (iid name : string) (known : Cli.incident_record) :
  let o1 := Cli.process_incidents {| incidents := Some pre |} suppress st in
  let o2 := Cli.process_incident suppress inc false (out_state o1) in
  let o3 := Cli.process_incidents {| incidents := Some post |} suppress (out_state o2) in
  let o := Cli.process_incidents {| incidents := Some (pre ++ inc :: post) |} suppress st in
  let updates := default [] (incident_updates inc) in
  let new := List.filter (is_new (Cli.seen_update_ids known)) updates in
  is_ok (out_result o1) = true →
  inc_fields inc !! "id" = Some iid →
  inc_fields inc !! "name" = Some name →
  Forall (λ u, is_Some (u !! "id")) updates →
  Cli.known_incidents (out_state o1) !! iid = Some known →
  new ≠ [] →
  Forall (λ u, is_ok (fmt_time (created_at_key u)) = true) new →
  (∃ us, us ≡ₚ new
         ∧ StronglySorted (key_ge created_at_key) us
         ∧ Forall2 (update_event_of name) us (out_events o2))
  ∧ length (out_events o2) = length new
  ∧ (∀ u3 u4, In u3 new → In u4 new →
       String.ltb (created_at_key u3) (created_at_key u4) = true →
       ∃ evs1 evs2 evs3 ev3 ev4,
         out_events o2 = evs1 ++ ev4 :: evs2 ++ ev3 :: evs3
         ∧ update_event_of name u4 ev4 ∧ update_event_of name u3 ev3)
  ∧ is_ok (out_result o2) = true
  ∧ out_events o = out_events o1 ++ out_events o2 ++ out_events o3
  ∧ out_state o = out_state o3.
Proof.
  intros o1 o2 o3 o updates new Hok1 Hid Hname Hids Hknown Hnew Hfmt.
  destruct (process_incident_new_updates suppress inc false (out_state o1) iid name known
              Hid Hname Hids Hknown Hnew Hfmt) as (ids & evs & Hset & Hevs & Ho2).
  fold o2 in Ho2. fold updates new in Hevs.
  assert (is_ok (out_result o2) = true) as Hok2 by by rewrite Ho2.
  destruct (process_incidents_split suppress pre post inc st Hok1 Hok2) as (Hev & Hst & _).
  assert (out_events o2 = evs) as Hevs2 by by rewrite Ho2.
  pose proof (sorted_reverse_perm created_at_key new) as Hperm.
  pose proof (sorted_reverse_sorted created_at_key new) as Hsorted.
  split; [|split; [|split; [|done]]].
  - exists (sorted_reverse created_at_key new). by rewrite Hevs2.
  - rewrite Hevs2, <- (Forall2_length _ _ _ Hevs). by rewrite Hperm.
  - intros u3 u4 Hu3 Hu4 Hlt. rewrite Hevs2.
    apply list_elem_of_In in Hu3, Hu4. rewrite <- Hperm in Hu3, Hu4.
    destruct (sorted_precedes created_at_key _ u3 u4 Hsorted Hu3 Hu4 Hlt)
      as (l1 & l2 & l3 & Hsplit).
    rewrite Hsplit in Hevs.
    apply Forall2_app_inv_l in Hevs as (evs1 & rest & _ & Hrest & ->).
    apply Forall2_cons_inv_l in Hrest as (ev4 & rest' & Hev4 & Hrest & ->).
    apply Forall2_app_inv_l in Hrest as (evs2 & rest & _ & Hrest & ->).
    apply Forall2_cons_inv_l in Hrest as (ev3 & evs3 & Hev3 & _ & ->).
    by exists evs1, evs2, evs3, ev3, ev4.
Qed.

(** C2, as the code has it.  A call that reaches a tracked incident with
    new updates (its name present, the creation times of the new updates
    rendering), and whose later descriptors have other IDs, leaves as the
    stored set of seen update IDs exactly the IDs delivered with that
    descriptor: the set is replaced, not merged.  A previously seen ID is
    still in the set afterwards exactly when the descriptor delivers it
    again, so the set does not shrink when the descriptor repeats every ID
    seen before. *)
Theorem process_incidents_seen_replaced
    (suppress : bool) (pre post : list incident) (inc : incident) (st : Cli.monitor)
    (iid name : string) (known : Cli.incident_record) :
  let o1 := Cli.process_incidents {| incidents := Some pre |} suppress st in
  let o := Cli.process_incidents {| incidents := Some (pre ++ inc :: post) |} suppress st in
  let updates := default [] (incident_updates inc) in
  let new := List.filter (is_new (Cli.seen_update_ids known)) updates in
  is_ok (out_result o1) = true →
  inc_fields inc !! "id" = Some iid →
  inc_fields inc !! "name" = Some name →
  Forall (λ u, is_Some (u !! "id")) updates →
  Cli.known_incidents (out_state o1) !! iid = Some known →
  new ≠ [] →
  Forall (λ u, is_ok (fmt_time (created_at_key u)) = true) new →
  Forall (λ inc', inc_fields inc' !! "id" ≠ Some iid) post →
  ∃ record,
    Cli.known_incidents (out_state o) !! iid = Some record
    ∧ (∀ i, i ∈ Cli.seen_update_ids record ↔ ∃ u, u ∈ updates ∧ u !! "id" = Some i)
    ∧ (∀ i, i ∈ Cli.seen_update_ids known →
         (i ∈ Cli.seen_update_ids record ↔ ∃ u, u ∈ updates ∧ u !! "id" = Some i))
    ∧ ((∀ i, i ∈ Cli.seen_update_ids known → ∃ u, u ∈ updates ∧ u !! "id" = Some i) →
         Cli.seen_update_ids known ⊆ Cli.seen_update_ids record)
    ∧ Cli.status record = get (inc_fields inc) "status" ""
    ∧ Cli.updated_at record = get (inc_fields inc) "updated_at" "".
Proof.
  intros o1 o updates new Hok1 Hid Hname Hids Hknown Hnew Hfmt Hpost.
  destruct (process_incident_new_updates suppress inc false (out_state o1) iid name known
              Hid Hname Hids Hknown Hnew Hfmt) as (ids & evs & Hset & _ & Ho2).
  fold updates in Hset.
  assert (is_ok (out_result (Cli.process_incident suppress inc false (out_state o1))) = true)
    as Hok2 by by rewrite Ho2.
  destruct (process_incidents_split suppress pre post inc st Hok1 Hok2) as (_ & Hst & _).
  pose proof (update_id_set_elem _ _ Hset) as Helem.
  exists {| Cli.updated_at := get (inc_fields inc) "updated_at" "";
            Cli.status := get (inc_fields inc) "status" "";
            Cli.seen_update_ids := ids |}.
  split; [|split; [|split; [|split; [|done]]]].
  - fold o in Hst. rewrite Hst.
    etrans; [exact (process_incidents_frame suppress post false _ iid Hpost)|].
    fold o1. rewrite Ho2. simpl. by rewrite lookup_insert_eq.
  - done.
  - intros i _. apply Helem.
  - intros Hall i Hi. simpl. apply Helem. by apply Hall.
Qed.
Lemma process_incident_complete_ok (suppress : bool) (inc : incident) (c : bool)
    (st : Cli.monitor) :
  incident_complete inc →
  is_ok (out_result (Cli.process_incident suppress inc c st)) = true.
Proof.
  intros ([iid Hid] & [name Hname] & Hups).
  assert (Forall (λ u, is_Some (u !! "id")) (default [] (incident_updates inc))) as Hids.
  { eapply Forall_impl; [exact Hups|]. by intros u [? _]. }
  destruct (Cli.known_incidents st !! iid) as [known|] eqn:Hknown.
  - destruct (List.filter (is_new (Cli.seen_update_ids known))
                (default [] (incident_updates inc))) as [|u us] eqn:Hnew.
    + destruct (update_id_set_ok _ Hids) as [ids Hset].
      rewrite (process_incident_known _ _ _ _ _ _ _ Hid Hset Hknown). by rewrite Hnew.
    + destruct (process_incident_new_updates suppress inc c st iid name known
                  Hid Hname Hids Hknown) as (ids & evs & _ & _ & ->); [by rewrite Hnew| |done].
      apply Forall_forall. intros v Hv. apply list_elem_of_In, filter_In in Hv as [Hv _].
      rewrite Forall_forall in Hups. apply Hups. by apply list_elem_of_In.
  - destruct (update_id_set_ok _ Hids) as [ids Hset].
    rewrite (process_incident_unknown _ _ _ _ _ _ Hid Hset Hknown). simpl.
    destruct suppress; [done|]. by rewrite (getitem_Some _ _ _ Hname).
Qed.

Lemma process_incidents_ok (suppress : bool) (incs : list incident) (c : bool)
    (st : Cli.monitor) :
  Forall incident_complete incs →
  is_ok (out_result (for_each (Cli.process_incident suppress) incs c st)) = true.
Proof.
  intros Hall. revert c st. induction Hall as [|inc incs Hi _ IH]; intros c st; [done|].
  simpl. pose proof (process_incident_complete_ok suppress inc c st Hi) as Hok.
  destruct (Cli.process_incident suppress inc c st) as [st1 evs1 [c1|e1]]; [|done].
  simpl. apply IH.
Qed.

(** C1, as the code has it.  [process_summary] returns without raising on
    every summary whose component descriptors each carry ["id"], ["name"]
    and ["status"], and [process_incidents] returns without raising on every
    incidents document whose descriptors each carry ["id"] and ["name"] and
    whose updates each carry an ["id"] and a ["created_at"] that renders.
    The ["components"], ["incidents"] and ["incident_updates"] lists and the
    fields ["status"], ["impact"], ["updated_at"] and ["body"] may be
    missing: they are read with defaults. *)
Theorem complete_documents_do_not_raise
    (data : summary_data) (idata : incidents_data) (suppress : bool)
    (st st' : Cli.monitor) :
  Forall component_complete (default [] (components data)) →
  Forall incident_complete (default [] (incidents idata)) →
  is_ok (out_result (Cli.process_summary data st)) = true
  ∧ is_ok (out_result (Cli.process_incidents idata suppress st')) = true.
Proof.
  intros Hcomps Hincs. split.
  - by apply process_components_ok.
  - by apply process_incidents_ok.
Qed.
End CliIncidentClaims.

(** ** The statements at concrete documents *)

(** The first two fields named by C1 are indexed, not read with a default:
    a component without ["id"] or without ["status"] and a new incident
    without ["name"] each raise [KeyError]. *)
Lemma incomplete_descriptors_raise :
  out_result (Cli.process_summary {| components := Some [api_without_id] |} (Cli.init None))
  = Raise (KeyError "id")
  ∧ out_result (Cli.process_summary {| components := Some [api_without_status] |}
                  (Cli.init None))
    = Raise (KeyError "status")
  ∧ out_result (Cli.process_incidents (H := utc_datetime)
                  {| incidents := Some [incident_without_name] |} false (Cli.init None))
    = Raise (KeyError "name").
Proof. by vm_compute. Qed.

Lemma complete_documents_do_not_raise_witness :
  is_ok (out_result (Cli.process_summary {| components := Some [api_operational] |}
                       (Cli.init None))) = true
  ∧ is_ok (out_result (Cli.process_incidents (H := utc_datetime)
                         {| incidents := Some [bare_incident; outage "identified" [update_b]] |}
                         false tracking_outage)) = true.
Proof.
  apply (complete_documents_do_not_raise (H := utc_datetime)).
  - repeat constructor; by eexists.
  - repeat constructor; by eexists.
Defined.

Lemma process_incidents_new_incident_witness :
  out_events (Cli.process_incidents (H := utc_datetime)
                {| incidents := Some [outage "identified" [update_b; update_a]] |}
                false (Cli.init None))
  = [Cli.NewIncident "Outage" "major" "identified" "The cause has been identified."].
Proof.
  destruct (process_incidents_new_incident (H := utc_datetime) [] []
              (outage "identified" [update_b; update_a]) (Cli.init None) "1" "Outage")
    as (body & Hev2 & _ & Hbody & _ & _ & _ & Hev & _);
    [reflexivity | reflexivity | reflexivity | repeat constructor; by eexists | reflexivity |].
  etrans; [exact Hev|]. rewrite Hev2.
  by rewrite (Hbody update_b "The cause has been identified.").
Defined.

Lemma process_incidents_suppressed_witness :
  out_events (Cli.process_incidents (H := utc_datetime)
                {| incidents := Some [outage "identified" [update_b; update_a]] |}
                true (Cli.init None))
  = []
  ∧ ∃ record,
      Cli.known_incidents
        (out_state (Cli.process_incident (H := utc_datetime) true
                      (outage "identified" [update_b; update_a]) false (Cli.init None)))
        !! "1" = Some record
      ∧ "a" ∈ Cli.seen_update_ids record ∧ "b" ∈ Cli.seen_update_ids record.
Proof.
  destruct (process_incidents_suppressed (H := utc_datetime) [] []
              (outage "identified" [update_b; update_a]) (Cli.init None) "1")
    as (Hev2 & _ & (record & Hrecord & Hseen & _) & Hev & _);
    [reflexivity | reflexivity | repeat constructor; by eexists | reflexivity |].
  split; [by etrans; [exact Hev|]|].
  exists record. split; [exact Hrecord|]. split; apply Hseen.
  - exists update_a. split; [by right; left|reflexivity].
  - exists update_b. split; [by left|reflexivity].
Defined.

Lemma process_incidents_nothing_new_witness :
  out_events (Cli.process_incident (H := utc_datetime) false
                (outage "investigating" [update_a]) false tracking_outage) = []
  ∧ out_state (Cli.process_incident (H := utc_datetime) false
                 (outage "investigating" [update_a]) false tracking_outage)
    = tracking_outage.
Proof.
  destruct (process_incidents_nothing_new (H := utc_datetime) false [] []
              (outage "investigating" [update_a]) tracking_outage "1"
              {| Cli.updated_at := "2024-01-01T00:00:00Z";
                 Cli.status := "investigating";
                 Cli.seen_update_ids := {[ "a" ]} |})
    as (Hev2 & Hst2 & _);
    [reflexivity | reflexivity | | reflexivity |].
  - repeat constructor. exists "a". split; [reflexivity|]. by vm_compute.
  - by split.
Defined.

Lemma process_incidents_new_updates_witness :
  ∃ evs1 evs2 evs3 ev_b ev_c,
    out_events (Cli.process_incident (H := utc_datetime) false
                  (outage "resolved" [update_b; update_c; update_a]) false tracking_outage)
    = evs1 ++ ev_c :: evs2 ++ ev_b :: evs3
    ∧ update_event_of (H := utc_datetime) "Outage" update_c ev_c
    ∧ update_event_of (H := utc_datetime) "Outage" update_b ev_b.
Proof.
  destruct (process_incidents_new_updates (H := utc_datetime) false [] []
              (outage "resolved" [update_b; update_c; update_a]) tracking_outage "1" "Outage"
              {| Cli.updated_at := "2024-01-01T00:00:00Z";
                 Cli.status := "investigating";
                 Cli.seen_update_ids := {[ "a" ]} |})
    as (_ & _ & Horder & _);
    [reflexivity | reflexivity | reflexivity | repeat constructor; by eexists
    | reflexivity | by vm_compute | by vm_compute; repeat constructor |].
  apply (Horder update_b update_c); [by vm_compute; left | by vm_compute; right; left|].
  by vm_compute.
Defined.

(** What the model prints for the document of the previous statement. *)
Example new_updates_printed :
  out_events (Cli.process_incident (H := utc_datetime) false
                (outage "resolved" [update_b; update_c; update_a]) false tracking_outage)
  = [Cli.IncidentUpdate "Outage" "resolved" "The incident has been resolved."
       "2024-01-01 02:00:00";
     Cli.IncidentUpdate "Outage" "identified" "The cause has been identified."
       "2024-01-01 01:00:00"].
Proof. by vm_compute. Qed.

(** Against C5: update "d" was created one second after update "b", and
    its ["created_at"] is written for the zone one hour west of UTC.  As a
    text it is the smaller of the two, so the notification of "b" comes
    first and that of "d", the later update, last. *)
Lemma later_update_notified_last :
  parse_ts (H := iso_datetime) (created_at_key update_b) = Ok 1704070800
  ∧ parse_ts (H := iso_datetime) (created_at_key update_d) = Ok (1704070800 + 1)
  ∧ out_events (Cli.process_incidents (H := iso_datetime)
                  {| incidents := Some [outage "monitoring" [update_d; update_b; update_a]] |}
                  false tracking_outage)
    = [Cli.IncidentUpdate "Outage" "identified" "The cause has been identified."
         "2024-01-01 01:00:00";
       Cli.IncidentUpdate "Outage" "monitoring" "A fix is being monitored."
         "2024-01-01 01:00:01"].
Proof. by vm_compute. Qed.

(** Against C2: incident "1" is first delivered with updates "b" and "a",
    then with "c" and "b".  After the second poll the stored set is
    {"b", "c"}: the update ID "a", seen at the first poll, is gone, where a
    union would have kept it. *)
Lemma seen_update_id_dropped :
  let st1 := (Cli.run (H := utc_datetime) [tick_ab] (Cli.init None)).1 in
  let st2 := (Cli.run (H := utc_datetime) [tick_ab; tick_cb] (Cli.init None)).1 in
  (Cli.seen_update_ids <$> Cli.known_incidents st1 !! "1") = Some {[ "a"; "b" ]}
  ∧ (Cli.seen_update_ids <$> Cli.known_incidents st2 !! "1") = Some {[ "b"; "c" ]}
  ∧ (Cli.seen_update_ids <$> Cli.known_incidents st2 !! "1")
    ≠ Some ({[ "a"; "b" ]} ∪ {[ "b"; "c" ]}).
Proof. by vm_compute. Qed.

Lemma process_incidents_seen_replaced_witness :
  ∃ record,
    Cli.known_incidents
      (out_state (Cli.process_incidents (H := utc_datetime)
                    {| incidents := Some [outage "resolved" [update_c; update_b]; bare_incident] |}
                    false tracking_outage)) !! "1" = Some record
    ∧ ("a" ∈ Cli.seen_update_ids record ↔
         ∃ u, u ∈ [update_c; update_b] ∧ u !! "id" = Some "a").
Proof.
  destruct (process_incidents_seen_replaced (H := utc_datetime) false []
              [bare_incident] (outage "resolved" [update_c; update_b])
              tracking_outage "1" "Outage"
              {| Cli.updated_at := "2024-01-01T00:00:00Z";
                 Cli.status := "investigating";
                 Cli.seen_update_ids := {[ "a" ]} |})
    as (record & Hrecord & Hseen & _);
    [reflexivity | reflexivity | reflexivity | repeat constructor; by eexists
    | reflexivity | by vm_compute | by vm_compute; repeat constructor
    | by repeat constructor |].
  exists record. split; [exact Hrecord | apply Hseen].
Defined.

(** ** The two variants side by side *)

Lemma matches_returned (c : Cli.monitor) (evs : list Cli.event) (fl : bool) :
  matches (returned c evs fl) (returned (forget c) (to_server <$> evs) fl).
Proof. done. Qed.

Lemma for_each_matches {A : Type}
    (bodyC : A → bool → Cli.monitor → outcome Cli.monitor Cli.event)
    (bodyS : A → bool → Server.globals → outcome Server.globals Server.event)
    (P : A → Prop) (I : Cli.monitor → Prop) :
  (∀ x fl c, P x → I c →
     matches (bodyC x fl c) (bodyS x fl (forget c)) ∧ I (out_state (bodyC x fl c))) →
  ∀ l fl c, Forall P l → I c →
    matches (for_each bodyC l fl c) (for_each bodyS l fl (forget c))
    ∧ I (out_state (for_each bodyC l fl c)).
Proof.
  intros Hbody l fl c Hall. revert fl c.
  induction Hall as [|x l Hx _ IH]; intros fl c Hc; [done|].
  simpl. destruct (Hbody x fl c Hx Hc) as ((Hok & Hres & Hev & Hst) & Hinv).
  destruct (bodyC x fl c) as [c1 evs1 [fl1|e1]]; [|done].
  destruct (bodyS x fl (forget c)) as [s1 sevs1 sres1]. simpl in *. subst.
  destruct (IH fl1 c1 Hinv) as ((Hok' & Hres' & Hev' & Hst') & Hinv').
  split; [|done]. unfold matches. simpl.
  by rewrite Hres', Hev', Hst', fmap_app.
Qed.

(** A summary processed when it is not the first run. *)
Lemma diff_component_matches (comp : dict) (fl : bool) (c : Cli.monitor) :
  component_regular comp →
  statuses_nonempty (Cli.component_statuses c) →
  matches (Cli.process_component comp fl c) (Server.diff_component comp fl (forget c))
  ∧ statuses_nonempty (Cli.component_statuses (out_state (Cli.process_component comp fl c))).
Proof.
  intros (([cid Hid] & [name Hname] & [status Hstatus]) & Hne) Hinv.
  rewrite (process_component_complete _ _ _ _ _ _ Hid Hname Hstatus).
  unfold Server.diff_component.
  rewrite (getitem_Some _ _ _ Hid), (getitem_Some _ _ _ Hname),
    (getitem_Some _ _ _ Hstatus). simpl.
  assert (statuses_nonempty (<[cid := status]> (Cli.component_statuses c))) as Hinv'.
  { intros cid' s'. rewrite lookup_insert. case_decide; [|by apply Hinv].
    intros [= <-]. congruence. }
  destruct (Cli.component_statuses c !! cid) as [old|] eqn:Hold; simpl; [|done].
  assert (old ≠ "") as Hold_ne by by eapply Hinv.
  apply String.eqb_neq in Hold_ne. rewrite Hold_ne. simpl.
  destruct (decide (old ≠ status)) as [Hdiff|Hsame].
  - rewrite decide_True by congruence. done.
  - rewrite decide_False; [done|]. intros Hn. apply Hsame. congruence.
Qed.

Lemma load_component_complete (comp : dict) (fl : bool) (s : Server.globals)
    (cid status : string) :
  comp !! "id" = Some cid → comp !! "status" = Some status →
  Server.load_component comp fl s =
    returned (Server.set_component_statuses s
                (<[cid := status]> (Server.component_statuses s))) [] fl.
Proof.
  intros Hid Hstatus. unfold Server.load_component.
  by rewrite (getitem_Some _ _ _ Hid), (getitem_Some _ _ _ Hstatus).
Qed.

(** A summary processed on the first run, when no status is recorded yet
    and the summary names each component once. *)
Lemma load_components_match (comps : list dict) (fl : bool) (c : Cli.monitor) :
  Forall component_regular comps →
  NoDup ((λ comp : dict, comp !! "id") <$> comps) →
  Forall (λ comp : dict, ∀ cid, comp !! "id" = Some cid →
                                Cli.component_statuses c !! cid = None) comps →
  statuses_nonempty (Cli.component_statuses c) →
  let oc := for_each Cli.process_component comps fl c in
  let os := for_each Server.load_component comps fl (forget c) in
  matches oc os
  ∧ out_events oc = []
  ∧ statuses_nonempty (Cli.component_statuses (out_state oc)).
Proof.
  intros Hall. revert fl c.
  induction Hall as [|comp comps Hc _ IH]; intros fl c Hnodup Hfresh Hinv; [done|].
  destruct Hc as (([cid Hid] & [name Hname] & [status Hstatus]) & Hne).
  apply NoDup_cons in Hnodup as [Hnotin Hnodup].
  apply Forall_cons in Hfresh as [Hfresh_c Hfresh].
  simpl. rewrite (process_component_complete _ _ _ _ _ _ Hid Hname Hstatus).
  rewrite (Hfresh_c cid Hid).
  rewrite (load_component_complete _ _ _ _ _ Hid Hstatus). simpl.
  set (c1 := Cli.set_component_statuses _ _).
  destruct (IH fl c1) as ((Hok & Hres & Hev & Hst) & Hnil & Hinv'); [done| |..].
  - apply Forall_forall. intros comp' Hin cid' Hid'. unfold c1. simpl.
    rewrite lookup_insert_ne.
    + rewrite Forall_forall in Hfresh. by apply (Hfresh comp').
    + intros <-. apply Hnotin. rewrite Hid, <- Hid'.
      by apply list_elem_of_fmap_2.
  - intros cid' s'. unfold c1. simpl. rewrite lookup_insert.
    case_decide; [|by apply Hinv]. intros [= <-]. congruence.
  - assert (Server.set_component_statuses (forget c)
              (<[cid:=status]> (Cli.component_statuses c)) = forget c1) as -> by done.
    destruct (for_each Cli.process_component comps fl c1) as [c2 evs2 res2],
      (for_each Server.load_component comps fl (forget c1)) as [s2 sevs2 sres2].
    unfold matches, after_events. simpl in *. by subst.
Qed.

Lemma process_component_keeps (comp : dict) (fl : bool) (c : Cli.monitor) :
  Cli.first_run (out_state (Cli.process_component comp fl c)) = Cli.first_run c
  ∧ Cli.known_incidents (out_state (Cli.process_component comp fl c))
    = Cli.known_incidents c.
Proof.
  unfold Cli.process_component.
  destruct (_ ≫= _) as [[[cid name] status]|e]; [|done]. simpl.
  destruct (Cli.component_statuses c !! cid) as [old|]; [|done].
  by destruct (decide (old ≠ status)).
Qed.

Lemma process_components_keep (comps : list dict) (fl : bool) (c : Cli.monitor) :
  Cli.first_run (out_state (for_each Cli.process_component comps fl c)) = Cli.first_run c
  ∧ Cli.known_incidents (out_state (for_each Cli.process_component comps fl c))
    = Cli.known_incidents c.
Proof.
  revert fl c. induction comps as [|comp comps IH]; intros fl c; [done|]. simpl.
  destruct (process_component_keeps comp fl c) as [Hfr Hk].
  destruct (Cli.process_component comp fl c) as [c1 evs1 [fl1|e1]]; [|done].
  simpl in *. destruct (IH fl1 c1) as [Hfr' Hk']. by rewrite Hfr', Hk'.
Qed.

Lemma forget_init (interval : option Z) : forget (Cli.init interval) = Server.init.
Proof. unfold forget, Server.init. simpl. by rewrite fmap_empty. Qed.

Lemma forget_set_known (c : Cli.monitor) (iid : string) (r : Cli.incident_record) :
  forget (Cli.set_known_incidents c (<[iid := r]> (Cli.known_incidents c)))
  = Server.set_known_incidents (forget c)
      (<[iid := forget_record r]> (Server.known_incidents (forget c))).
Proof. unfold forget, Server.set_known_incidents. simpl. by rewrite fmap_insert. Qed.

Lemma forget_set_first_run (c : Cli.monitor) :
  forget (if Cli.first_run c then Cli.set_first_run c false else c)
  = if Server.first_run (forget c) then Server.set_first_run (forget c) false
    else forget c.
Proof. simpl. by destruct (Cli.first_run c). Qed.

Section Variants.
Context `{DateTimeLib}.

Lemma update_loops_match (inc : incident) (name : string) (us : list dict) (fl : bool)
    (c : Cli.monitor) (s : Server.globals) :
  inc_fields inc !! "name" = Some name →
  Forall update_regular us →
  ∃ evs fl',
    for_each (Cli.print_update inc) us fl c = returned c evs fl'
    ∧ for_each (Server.log_update inc) us fl s = returned s (to_server <$> evs) fl'.
Proof.
  intros Hname Hall. revert fl. induction Hall as [|u us Hu _ IH]; intros fl.
  - by exists [], fl.
  - destruct Hu as (_ & [st Hst] & ts & Hts & Hfmt).
    destruct (fmt_time ts) as [time|] eqn:Htime; [|done].
    destruct (IH true) as (evs & fl' & Hc & Hs).
    assert (Cli.print_update inc u fl c
            = returned c [Cli.IncidentUpdate name st (get u "body" "") time] true) as Hbc.
    { unfold Cli.print_update.
      by rewrite (get_Some _ _ _ _ Hts), Htime, (getitem_Some _ _ _ Hname),
           (get_Some _ _ _ _ Hst). }
    assert (Server.log_update inc u fl s
            = returned s [Server.Update name st (get u "body" "") time] true) as Hbs.
    { unfold Server.log_update.
      by rewrite (getitem_Some _ _ _ Hts), (getitem_Some _ _ _ Hname),
           (get_Some _ _ _ _ Hst); simpl; rewrite Htime. }
    exists (Cli.IncidentUpdate name st (get u "body" "") time :: evs), fl'.
    simpl. rewrite Hbc, Hbs. simpl. by rewrite Hc, Hs.
Qed.

Lemma process_incident_keeps (suppress : bool) (inc : incident) (fl : bool)
    (c : Cli.monitor) :
  Cli.first_run (out_state (Cli.process_incident suppress inc fl c)) = Cli.first_run c
  ∧ Cli.component_statuses (out_state (Cli.process_incident suppress inc fl c))
    = Cli.component_statuses c.
Proof.
  unfold Cli.process_incident.
  destruct (_ ≫= _) as [[iid ids]|e]; [|done]. simpl.
  destruct (Cli.known_incidents c !! iid) as [known|].
  - destruct (decide _); [done|].
    match goal with |- context [for_each _ ?us fl c] =>
      pose proof (print_updates_state inc us fl c) as Hst;
      destruct (for_each (Cli.print_update inc) us fl c) as [c1 evs1 [fl1|e1]]
    end; simpl in *; by subst.
  - destruct suppress; [done|]. by destruct (getitem _ _).
Qed.

(** One incident descriptor in the two variants. *)
Lemma diff_incident_matches (inc : incident) (fl : bool) (c : Cli.monitor) :
  incident_regular inc →
  matches (Cli.process_incident (Cli.first_run c) inc fl c)
    (Server.diff_incident inc fl (forget c)).
Proof.
  intros ([iid Hid] & [name Hname] & [status Hstatus] & Hups).
  assert (Forall (λ u, is_Some (u !! "id")) (default [] (incident_updates inc))) as Hids.
  { eapply Forall_impl; [exact Hups|]. by intros u [? _]. }
  destruct (update_id_set_ok _ Hids) as [ids Hset].
  unfold Cli.process_incident, Server.diff_incident.
  rewrite (getitem_Some _ _ _ Hid), Hset. simpl.
  rewrite lookup_fmap.
  destruct (Cli.known_incidents c !! iid) as [known|] eqn:Hknown; simpl.
  - destruct (decide (ids ∖ Cli.seen_update_ids known = ∅)); [done|].
    set (us := sorted_reverse created_at_key _).
    assert (Forall update_regular us) as Hus.
    { unfold us. rewrite sorted_reverse_perm. apply Forall_forall. intros u Hu.
      apply list_elem_of_In, filter_In in Hu as [Hu _].
      rewrite Forall_forall in Hups. by apply Hups, list_elem_of_In. }
    destruct (update_loops_match inc name us fl c (forget c) Hname Hus)
      as (evs & fl' & -> & ->).
    simpl. unfold matches. simpl. by rewrite forget_set_known.
  - rewrite (getitem_Some _ _ _ Hname).
    rewrite !(get_Some _ _ _ _ Hstatus).
    destruct (Cli.first_run c) eqn:Hfr; unfold matches; simpl;
      by rewrite forget_set_known.
Qed.

(** One tick in the two variants. *)
Lemma poll_matches (f : fetched) (c : Cli.monitor) :
  tick_regular f →
  statuses_nonempty (Cli.component_statuses c) →
  (Cli.first_run c = true → NoDup (component_ids f) ∧ Cli.component_statuses c = ∅) →
  matches (Cli.poll f c) (Server.poll_iteration f (forget c))
  ∧ statuses_nonempty (Cli.component_statuses (out_state (Cli.poll f c)))
  ∧ Cli.first_run (out_state (Cli.poll f c)) = false.
Proof.
  intros [Hcomps Hincs] Hinv Hfirst.
  unfold Cli.poll, Server.poll_iteration.
  set (oc1 := match fetched_summary f with
              | Some data => Cli.process_summary data c
              | None => returned c [] false
              end).
  set (os1 := match fetched_summary f with
              | Some summary => for_each _ _ false (forget c)
              | None => returned (forget c) [] false
              end).
  assert (matches oc1 os1
          ∧ statuses_nonempty (Cli.component_statuses (out_state oc1))
          ∧ Cli.first_run (out_state oc1) = Cli.first_run c) as (Hm1 & Hinv1 & Hfr1).
  { unfold oc1, os1, component_ids in *.
    destruct (fetched_summary f) as [data|]; simpl in *; [|done].
    unfold Cli.process_summary.
    split; [|split]; [| |apply process_components_keep].
    - destruct (Cli.first_run c) eqn:Hfr.
      + destruct (Hfirst eq_refl) as [Hnodup Hempty].
        apply load_components_match; [done|done| |done].
        apply Forall_forall. intros comp _ cid _. by rewrite Hempty.
      + apply (for_each_matches Cli.process_component Server.diff_component
                 component_regular
                 (λ c, statuses_nonempty (Cli.component_statuses c)));
          [|done|done].
        intros comp fl c' Hc Hc'. by apply diff_component_matches.
    - destruct (Cli.first_run c) eqn:Hfr.
      + destruct (Hfirst eq_refl) as [Hnodup Hempty].
        apply load_components_match; [done|done| |done].
        apply Forall_forall. intros comp _ cid _. by rewrite Hempty.
      + apply (for_each_matches Cli.process_component Server.diff_component
                 component_regular
                 (λ c, statuses_nonempty (Cli.component_statuses c)));
          [|done|done].
        intros comp fl c' Hc Hc'. by apply diff_component_matches. }
  clearbody oc1 os1. destruct Hm1 as (Hok1 & Hres1 & Hev1 & Hst1).
  destruct oc1 as [c1 evs1 [fl1|e1]]; [|done].
  destruct os1 as [s1 sevs1 sres1]. simpl in *. subst s1 sevs1 sres1.
  set (oc2 := match fetched_incidents f with
              | Some data => Cli.process_incidents data (Cli.first_run c1) c1
              | None => returned c1 [] false
              end).
  set (os2 := match fetched_incidents f with
              | Some data => for_each _ _ false (forget c1)
              | None => returned (forget c1) [] false
              end).
  assert (matches oc2 os2
          ∧ statuses_nonempty (Cli.component_statuses (out_state oc2))) as (Hm2 & Hinv2).
  { unfold oc2, os2.
    destruct (fetched_incidents f) as [data|]; simpl in *; [|done].
    unfold Cli.process_incidents.
    destruct (for_each_matches (Cli.process_incident (Cli.first_run c1)) Server.diff_incident
                incident_regular
                (λ c', Cli.first_run c' = Cli.first_run c1
                       ∧ Cli.component_statuses c' = Cli.component_statuses c1)
                ) with (l := default [] (incidents data)) (fl := false) (c := c1)
      as (Hm & _ & Hcs); [|done|done|].
    - intros inc fl c' Hinc [Hfr' Hcs'].
      destruct (process_incident_keeps (Cli.first_run c1) inc fl c') as [Hk1 Hk2].
      split; [|by rewrite Hk1, Hk2]. rewrite <- Hfr'. by apply diff_incident_matches.
    - split; [done|]. by rewrite Hcs. }
  clearbody oc2 os2. destruct Hm2 as (Hok2 & Hres2 & Hev2 & Hst2).
  destruct oc2 as [c2 evs2 [fl2|e2]]; [|done].
  destruct os2 as [s2 sevs2 sres2]. simpl in *. subst s2 sevs2 sres2. simpl.
  split; [|split].
  - unfold matches. simpl. rewrite fmap_app. by destruct (Cli.first_run c2).
  - by destruct (Cli.first_run c2).
  - by destruct (Cli.first_run c2) eqn:Hfr2.
Qed.
End Variants.

Section VariantsRun.
Context `{DateTimeLib}.

Lemma run_matches (ticks : list fetched) (c : Cli.monitor) :
  Forall tick_regular ticks →
  statuses_nonempty (Cli.component_statuses c) →
  (Cli.first_run c = true →
     first_summary_distinct ticks ∧ Cli.component_statuses c = ∅) →
  Server.poll_loop ticks (forget c)
  = (forget (Cli.run ticks c).1, to_server <$> (Cli.run ticks c).2).
Proof.
  intros Hall. revert c. induction Hall as [|f ticks Hf _ IH]; intros c Hinv Hfirst; [done|].
  simpl.
  destruct (poll_matches f c Hf Hinv) as ((Hok & Hres & Hev & Hst) & Hinv' & Hfr').
  { intros Hfr. by destruct (Hfirst Hfr). }
  destruct (Cli.poll f c) as [c1 evs1 [fl1|e1]]; [|done].
  destruct (Server.poll_iteration f (forget c)) as [s1 sevs1 sres1].
  simpl in *. subst s1 sevs1 sres1.
  rewrite (IH c1 Hinv') by (intros Hfr; congruence).
  destruct (Cli.run ticks c1) as [c2 evs2]. simpl. by rewrite fmap_app.
Qed.

(** C9, as the code has it.  Started from their initial states and fed the
    same ticks, the two variants agree as long as the documents are regular
    (every component has ["id"], ["name"] and a non-empty ["status"]; every
    incident has ["id"], ["name"] and ["status"]; every update has ["id"],
    ["status"] and a ["created_at"] that renders) and the summary of the
    first tick names each component once: the server pushes, in the same
    order, the notification of each component change, new incident and new
    update the command-line variant prints (its new-incident notification
    without the update body), and its globals are the state of the
    command-line variant without the component names and the
    ["updated_at"] of the incidents. *)
Theorem variants_agree_on_regular_ticks (ticks : list fetched) (interval : option Z) :
  Forall tick_regular ticks →
  first_summary_distinct ticks →
  (Server.poll_loop ticks Server.init).2
  = to_server <$> (Cli.run ticks (Cli.init interval)).2
  ∧ (Server.poll_loop ticks Server.init).1
    = forget (Cli.run ticks (Cli.init interval)).1.
Proof.
  intros Hall Hdistinct. rewrite <- (forget_init interval).
  rewrite (run_matches ticks (Cli.init interval) Hall); [done| |done].
  intros cid s Hs. simpl in Hs. by rewrite lookup_empty in Hs.
Qed.
End VariantsRun.

(** Against C9: on a first tick whose summary names component "x" twice
    with two statuses the command-line variant prints a status change and
    the server pushes nothing; and when a component was recorded with an
    empty status, its next status is a change for the command-line variant
    and none for the server. *)
Lemma variants_differ :
  (Cli.run (H := utc_datetime) [tick_repeated_component] (Cli.init None)).2
  = [Cli.ComponentStatusChange "API" "operational" "major_outage"]
  ∧ (Server.poll_loop (H := utc_datetime) [tick_repeated_component] Server.init).2 = []
  ∧ (Cli.run (H := utc_datetime) [tick_empty_status; tick_operational] (Cli.init None)).2
    = [Cli.ComponentStatusChange "API" "" "operational"]
  ∧ (Server.poll_loop (H := utc_datetime) [tick_empty_status; tick_operational]
       Server.init).2 = [].
Proof. by vm_compute. Qed.

Lemma variants_agree_on_regular_ticks_witness :
  (Server.poll_loop (H := utc_datetime) [tick_operational; tick_ab; tick_cb] Server.init).2
  = to_server <$>
      (Cli.run (H := utc_datetime) [tick_operational; tick_ab; tick_cb] (Cli.init None)).2
  ∧ (Server.poll_loop (H := utc_datetime) [tick_operational; tick_ab; tick_cb]
       Server.init).1
    = forget (Cli.run (H := utc_datetime) [tick_operational; tick_ab; tick_cb]
                (Cli.init None)).1.
Proof.
  apply (variants_agree_on_regular_ticks (H := utc_datetime)).
  - repeat constructor; try (by eexists); try discriminate.
    all: by (eexists; split; [reflexivity|vm_compute]).
  - by vm_compute; repeat constructor; set_solver.
Defined.

(** What the two variants print over these three ticks. *)
Example three_ticks_printed :
  (Cli.run (H := utc_datetime) [tick_operational; tick_ab; tick_cb] (Cli.init None)).2
  = [Cli.NewIncident "Outage" "major" "identified" "The cause has been identified.";
     Cli.IncidentUpdate "Outage" "resolved" "The incident has been resolved."
       "2024-01-01 02:00:00"]
  ∧ (Server.poll_loop (H := utc_datetime) [tick_operational; tick_ab; tick_cb]
       Server.init).2
    = [Server.NewIncident "Outage" "major" "identified";
       Server.Update "Outage" "resolved" "The incident has been resolved."
         "2024-01-01 02:00:00"].
Proof. by vm_compute. Qed.

(** X23. The two variants also sleep for the same time when no fixed
    interval is configured: the server's choice on [forget c] is
    [get_interval] on [c]. *)
Lemma sleep_interval_forget (c : Cli.monitor) :
  Cli.interval c = None → Server.sleep_interval (forget c) = Cli.get_interval c.
Proof.
  intros Hnone. unfold Server.sleep_interval, Cli.get_interval. rewrite Hnone.
  unfold Cli.ACTIVE_INTERVAL, Cli.CALM_INTERVAL.
  match goal with |- (if ?b1 then _ else _) = (if ?b2 then _ else _) =>
    assert (b1 = b2) as ->; [|done] end.
  apply eq_true_iff_eq. rewrite !existsb_exists. split.
  - intros [[iid r] [Hin Hact]].
    apply list_elem_of_In, elem_of_map_to_list in Hin. simpl in Hin.
    rewrite lookup_fmap in Hin.
    destruct (Cli.known_incidents c !! iid) as [v|] eqn:Hv; [|done].
    injection Hin as <-. exists (iid, v). split; [|done].
    by apply list_elem_of_In, elem_of_map_to_list.
  - intros [[iid v] [Hin Hact]].
    apply list_elem_of_In, elem_of_map_to_list in Hin.
    exists (iid, forget_record v). split; [|done].
    apply list_elem_of_In, elem_of_map_to_list. simpl.
    by rewrite lookup_fmap, Hin.
Qed.

(** X24. [process_summary] returns exactly on the summaries all of whose
    component descriptors carry ["id"], ["name"] and ["status"]; on any
    other summary it raises. *)
Lemma process_summary_ok_iff (data : summary_data) (st : Cli.monitor) :
  is_ok (out_result (Cli.process_summary data st)) = true
  ↔ Forall component_complete (default [] (components data)).
Proof.
  split; [|apply process_components_ok].
  unfold Cli.process_summary. generalize false as fl. revert st.
  induction (default [] (components data)) as [|comp comps IH]; intros st fl Hok; [done|].
  simpl in Hok.
  destruct (comp !! "id") as [cid|] eqn:Hid;
    [destruct (comp !! "name") as [name|] eqn:Hname;
     [destruct (comp !! "status") as [status|] eqn:Hstatus|]|].
  - constructor; [unfold component_complete; by rewrite Hid, Hname, Hstatus|].
    destruct (Cli.process_component comp fl st) as [st1 evs1 [fl1|e1]]; [|done].
    simpl in Hok. by eapply IH.
  - destruct (process_component_incomplete comp fl st) as [k Hk].
    { intros (_ & _ & [? Hs]). congruence. }
    by rewrite Hk in Hok.
  - destruct (process_component_incomplete comp fl st) as [k Hk].
    { intros (_ & [? Hs] & _). congruence. }
    by rewrite Hk in Hok.
  - destruct (process_component_incomplete comp fl st) as [k Hk].
    { intros ([? Hs] & _). congruence. }
    by rewrite Hk in Hok.
Qed.

(** * Further properties of the engine *)

(** ** Loops in general *)

Section ForEachMore.
Context {S E A : Type} (body : A → bool → S → outcome S E).

Lemma printed_or_app (c : bool) (evs1 evs2 : list E) :
  printed_or (printed_or c evs1) evs2 = printed_or c (evs1 ++ evs2).
Proof. by destruct evs1, evs2. Qed.

Lemma for_each_flag_reports :
  flag_reports body → flag_reports (λ l, for_each body l).
Proof.
  intros Hbody l. induction l as [|x l IH]; intros c st c' Hres.
  - simpl in *. congruence.
  - simpl in *. pose proof (Hbody x c st) as Hx.
    destruct (body x c st) as [st1 evs1 [c1|e1]]; simpl in *; [|done].
    pose proof (Hx c1 eq_refl) as ->. apply IH in Hres.
    by rewrite Hres, printed_or_app.
Qed.

(** What every round of a loop keeps, the loop keeps, also when a round
    raises. *)
Lemma for_each_keeps {B : Type} (f : S → B) :
  (∀ x c st, f (out_state (body x c st)) = f st) →
  ∀ l c st, f (out_state (for_each body l c st)) = f st.
Proof.
  intros Hbody l. induction l as [|x l IH]; intros c st; [done|]. simpl.
  pose proof (Hbody x c st) as Hx.
  destruct (body x c st) as [st1 evs1 [c1|e1]]; simpl in *; [|done].
  by rewrite IH.
Qed.

Lemma for_each_related (R : S → S → Prop) :
  Reflexive R → Transitive R →
  (∀ x c st, R st (out_state (body x c st))) →
  ∀ l c st, R st (out_state (for_each body l c st)).
Proof.
  intros Hrefl Htrans Hbody l. induction l as [|x l IH]; intros c st; [done|]. simpl.
  pose proof (Hbody x c st) as Hx.
  destruct (body x c st) as [st1 evs1 [c1|e1]]; simpl in *; [|done].
  by etrans.
Qed.

Lemma for_each_events_Forall (P : E → Prop) :
  (∀ x c st, Forall P (out_events (body x c st))) →
  ∀ l c st, Forall P (out_events (for_each body l c st)).
Proof.
  intros Hbody l. induction l as [|x l IH]; intros c st; [constructor|]. simpl.
  pose proof (Hbody x c st) as Hx.
  destruct (body x c st) as [st1 evs1 [c1|e1]]; simpl in *; [|done].
  apply Forall_app. split; [done|apply IH].
Qed.
End ForEachMore.

(** ** The flag [changes] *)

Lemma process_component_reports : flag_reports Cli.process_component.
Proof.
  intros comp c st c'. unfold Cli.process_component.
  destruct (_ ≫= _) as [[[cid name] status]|e]; [|done]. simpl.
  destruct (Cli.component_statuses st !! cid) as [old|]; [|by intros [= <-]].
  destruct (decide (old ≠ status)); by intros [= <-].
Qed.

Section EngineMore.
Context `{DateTimeLib}.

Lemma print_update_reports (inc : incident) : flag_reports (Cli.print_update inc).
Proof.
  intros u c st c'. unfold Cli.print_update. cbv zeta.
  destruct (_ ≫= _) as [[time name]|e]; [|done]. by intros [= <-].
Qed.

Lemma process_incident_reports (suppress : bool) :
  flag_reports (Cli.process_incident suppress).
Proof.
  intros inc c st. unfold Cli.process_incident.
  destruct (_ ≫= _) as [[iid ids]|e]; [|done]. simpl.
  destruct (Cli.known_incidents st !! iid) as [known|].
  - destruct (decide _); [by intros c' [= <-]|].
    set (us := sorted_reverse created_at_key _).
    pose proof (for_each_flag_reports _ (print_update_reports inc) us c st) as Hloop.
    cbv beta in Hloop.
    destruct (for_each (Cli.print_update inc) us c st) as [st1 evs1 [c1|e1]];
      simpl in *; [|done].
    intros c' [= <-]. by apply Hloop.
  - destruct suppress; [by intros c' [= <-]|].
    destruct (getitem _ _); [|done]. by intros c' [= <-].
Qed.

(** X1. When [poll] returns, the flag it returns is set exactly when it
    printed a notification. *)
Theorem poll_flag_reports_printing (f : fetched) (st : Cli.monitor) (b : bool) :
  out_result (Cli.poll f st) = Ok b →
  (b = true ↔ out_events (Cli.poll f st) ≠ []).
Proof.
  unfold Cli.poll.
  set (o1 := match fetched_summary f with
             | Some data => Cli.process_summary data st
             | None => returned st [] false
             end).
  assert (∀ c1, out_result o1 = Ok c1 → c1 = printed_or false (out_events o1)) as H1.
  { unfold o1. destruct (fetched_summary f) as [data|]; [|by intros c1 [= <-]].
    intros c1. apply (for_each_flag_reports _ process_component_reports). }
  clearbody o1. destruct o1 as [st1 evs1 [c1|e1]]; simpl in *; [|done].
  set (o2 := match fetched_incidents f with
             | Some data => Cli.process_incidents data (Cli.first_run st1) st1
             | None => returned st1 [] false
             end).
  assert (∀ c2, out_result o2 = Ok c2 → c2 = printed_or false (out_events o2)) as H2.
  { unfold o2. destruct (fetched_incidents f) as [data|]; [|by intros c2 [= <-]].
    intros c2. apply (for_each_flag_reports _ (process_incident_reports _)). }
  clearbody o2. destruct o2 as [st2 evs2 [c2|e2]]; simpl in *; [|done].
  intros [= <-]. rewrite (H1 c1 eq_refl), (H2 c2 eq_refl).
  destruct evs1, evs2; simpl; split; done.
Qed.

(** ** What the two passes leave alone *)

(** X2. [process_summary] never touches the tracked incidents, the
    first-run flag or the configured interval, and [process_incidents] never
    touches the component statuses and names, the first-run flag or the
    configured interval, whether they return or raise. *)
Theorem passes_leave_the_rest (data : summary_data) (idata : incidents_data)
    (suppress : bool) (st : Cli.monitor) :
  let st1 := out_state (Cli.process_summary data st) in
  let st2 := out_state (Cli.process_incidents idata suppress st) in
  (Cli.known_incidents st1 = Cli.known_incidents st
   ∧ Cli.first_run st1 = Cli.first_run st
   ∧ Cli.interval st1 = Cli.interval st)
  ∧ (Cli.component_statuses st2 = Cli.component_statuses st
     ∧ Cli.component_names st2 = Cli.component_names st
     ∧ Cli.first_run st2 = Cli.first_run st
     ∧ Cli.interval st2 = Cli.interval st).
Proof.
  intros st1 st2. split.
  - pose proof (for_each_keeps Cli.process_component
                  (λ st, (Cli.known_incidents st, Cli.first_run st, Cli.interval st)))
      as Hkeep.
    specialize (Hkeep) with (l := default [] (components data)) (c := false) (st := st).
    fold (Cli.process_summary data st) in Hkeep. fold st1 in Hkeep.
    assert ((Cli.known_incidents st1, Cli.first_run st1, Cli.interval st1)
            = (Cli.known_incidents st, Cli.first_run st, Cli.interval st)) as Heq.
    { apply Hkeep. intros comp c st'. unfold Cli.process_component.
      destruct (_ ≫= _) as [[[cid name] status]|e]; [|done]. simpl.
      destruct (Cli.component_statuses st' !! cid) as [old|]; [|done].
      by destruct (decide (old ≠ status)). }
    by injection Heq as -> -> ->.
  - pose proof (for_each_keeps (Cli.process_incident suppress)
                  (λ st, (Cli.component_statuses st, Cli.component_names st,
                          Cli.first_run st, Cli.interval st))) as Hkeep.
    specialize (Hkeep) with (l := default [] (incidents idata)) (c := false) (st := st).
    fold (Cli.process_incidents idata suppress st) in Hkeep. fold st2 in Hkeep.
    assert ((Cli.component_statuses st2, Cli.component_names st2,
             Cli.first_run st2, Cli.interval st2)
            = (Cli.component_statuses st, Cli.component_names st,
               Cli.first_run st, Cli.interval st)) as Heq.
    { apply Hkeep. intros inc c st'. unfold Cli.process_incident.
      destruct (_ ≫= _) as [[iid ids]|e]; [|done]. simpl.
      destruct (Cli.known_incidents st' !! iid) as [known|].
      - destruct (decide _); [done|].
        match goal with |- context [for_each _ ?us c st'] =>
          pose proof (print_updates_state inc us c st') as Hst;
          destruct (for_each (Cli.print_update inc) us c st') as [st3 evs3 [c3|e3]]
        end; simpl in *; by subst.
      - destruct suppress; [done|]. by destruct (getitem _ _). }
    by injection Heq as -> -> -> ->.
Qed.
End EngineMore.

(** ** Tracked IDs are never dropped *)

#[local] Instance keeps_ids_refl : Reflexive keeps_ids.
Proof. by intros st. Qed.

#[local] Instance keeps_ids_trans : Transitive keeps_ids.
Proof. intros st1 st2 st3 [Hk1 Hc1] [Hk2 Hc2]. split; set_solver. Qed.

Lemma process_component_keeps_ids (comp : dict) (c : bool) (st : Cli.monitor) :
  keeps_ids st (out_state (Cli.process_component comp c st)).
Proof.
  unfold Cli.process_component.
  destruct (_ ≫= _) as [[[cid name] status]|e]; [|done]. simpl.
  destruct (Cli.component_statuses st !! cid) as [old|];
    [destruct (decide (old ≠ status))|]; (split; simpl; [done|]);
    rewrite dom_insert_L; set_solver.
Qed.

Section TrackedIds.
Context `{DateTimeLib}.

Lemma process_incident_keeps_ids (suppress : bool) (inc : incident) (c : bool)
    (st : Cli.monitor) :
  keeps_ids st (out_state (Cli.process_incident suppress inc c st)).
Proof.
  unfold Cli.process_incident.
  destruct (_ ≫= _) as [[iid ids]|e]; [|done]. simpl.
  destruct (Cli.known_incidents st !! iid) as [known|].
  - destruct (decide _); [done|].
    set (us := sorted_reverse created_at_key _).
    pose proof (print_updates_state inc us c st) as Hst.
    destruct (for_each (Cli.print_update inc) us c st) as [st1 evs1 [c1|e1]];
      simpl in *; [|by subst].
    split; simpl; [|done]. rewrite dom_insert_L. set_solver.
  - assert (∀ r, keeps_ids st (Cli.set_known_incidents st
                                 (<[iid := r]> (Cli.known_incidents st)))) as Hins.
    { intros r. split; simpl; [|done]. rewrite dom_insert_L. set_solver. }
    destruct suppress; [apply Hins|]. destruct (getitem _ _); apply Hins.
Qed.

Lemma poll_keeps_ids (f : fetched) (st : Cli.monitor) :
  keeps_ids st (out_state (Cli.poll f st)).
Proof.
  unfold Cli.poll.
  set (o1 := match fetched_summary f with
             | Some data => Cli.process_summary data st
             | None => returned st [] false
             end).
  assert (keeps_ids st (out_state o1)) as H1.
  { unfold o1. destruct (fetched_summary f) as [data|]; [|done].
    apply (for_each_related _ keeps_ids _ _ process_component_keeps_ids). }
  clearbody o1. destruct o1 as [st1 evs1 [c1|e1]]; simpl in *; [|done].
  set (o2 := match fetched_incidents f with
             | Some data => Cli.process_incidents data (Cli.first_run st1) st1
             | None => returned st1 [] false
             end).
  assert (keeps_ids st1 (out_state o2)) as H2.
  { unfold o2. destruct (fetched_incidents f) as [data|]; [|done].
    apply (for_each_related _ keeps_ids _ _ (process_incident_keeps_ids _)). }
  clearbody o2. destruct o2 as [st2 evs2 [c2|e2]]; simpl in *; [|by etrans].
  etrans; [done|]. etrans; [done|]. by destruct (Cli.first_run st2).
Qed.

(** X3. Nothing is ever forgotten: over any series of polls, returning or
    raising, every incident ID and every component ID that is tracked stays
    tracked. *)
Theorem run_keeps_tracked_ids (ticks : list fetched) (st : Cli.monitor) :
  dom (Cli.known_incidents st) ⊆ dom (Cli.known_incidents (Cli.run ticks st).1)
  ∧ dom (Cli.component_statuses st) ⊆ dom (Cli.component_statuses (Cli.run ticks st).1).
Proof.
  change (keeps_ids st (Cli.run ticks st).1).
  revert st. induction ticks as [|f ticks IH]; intros st; [done|]. simpl.
  pose proof (poll_keeps_ids f st) as Hpoll. specialize (IH (out_state (Cli.poll f st))).
  destruct (Cli.run ticks (out_state (Cli.poll f st))) as [st' evs]. simpl in *.
  by etrans.
Qed.

(** ** The first-run flag *)

Lemma process_summary_first_run (data : summary_data) (st : Cli.monitor) :
  Cli.first_run (out_state (Cli.process_summary data st)) = Cli.first_run st.
Proof.
  apply (for_each_keeps Cli.process_component Cli.first_run).
  intros comp c st'. apply process_component_keeps.
Qed.

Lemma process_incidents_first_run (data : incidents_data) (suppress : bool)
    (st : Cli.monitor) :
  Cli.first_run (out_state (Cli.process_incidents data suppress st)) = Cli.first_run st.
Proof.
  apply (for_each_keeps (Cli.process_incident suppress) Cli.first_run).
  intros inc c st'. apply process_incident_keeps.
Qed.

(** X4. A poll that returns clears the first-run flag; a poll that raises
    leaves the flag as it was, so that after a first poll that raised the
    next poll is again a first run. *)
Theorem poll_first_run (f : fetched) (st : Cli.monitor) :
  (is_ok (out_result (Cli.poll f st)) = true →
     Cli.first_run (out_state (Cli.poll f st)) = false)
  ∧ (is_ok (out_result (Cli.poll f st)) = false →
       Cli.first_run (out_state (Cli.poll f st)) = Cli.first_run st).
Proof.
  unfold Cli.poll.
  set (o1 := match fetched_summary f with
             | Some data => Cli.process_summary data st
             | None => returned st [] false
             end).
  assert (Cli.first_run (out_state o1) = Cli.first_run st) as H1.
  { unfold o1. destruct (fetched_summary f) as [data|]; [|done].
    apply process_summary_first_run. }
  clearbody o1. destruct o1 as [st1 evs1 [c1|e1]]; simpl in *; [|done].
  set (o2 := match fetched_incidents f with
             | Some data => Cli.process_incidents data (Cli.first_run st1) st1
             | None => returned st1 [] false
             end).
  assert (Cli.first_run (out_state o2) = Cli.first_run st1) as H2.
  { unfold o2. destruct (fetched_incidents f) as [data|]; [|done].
    apply process_incidents_first_run. }
  clearbody o2. destruct o2 as [st2 evs2 [c2|e2]]; simpl in *.
  - split; [|done]. intros _. by destruct (Cli.first_run st2) eqn:Hfr.
  - split; [done|]. intros _. congruence.
Qed.

(** X5. While the first-run flag is set a poll prints no "NEW INCIDENT"
    notification, whatever the documents hold. *)
Theorem first_run_prints_no_new_incident (f : fetched) (st : Cli.monitor) :
  Cli.first_run st = true →
  Forall (λ ev, is_new_incident ev = false) (out_events (Cli.poll f st)).
Proof.
  intros Hfr. unfold Cli.poll.
  set (o1 := match fetched_summary f with
             | Some data => Cli.process_summary data st
             | None => returned st [] false
             end).
  assert (Cli.first_run (out_state o1) = true
          ∧ Forall (λ ev, is_new_incident ev = false) (out_events o1)) as [H1 He1].
  { unfold o1. destruct (fetched_summary f) as [data|]; [|by split].
    split; [by rewrite process_summary_first_run|].
    apply for_each_events_Forall. intros comp c st'. unfold Cli.process_component.
    destruct (_ ≫= _) as [[[cid name] status]|e]; [|constructor]. simpl.
    destruct (Cli.component_statuses st' !! cid) as [old|]; [|constructor].
    destruct (decide (old ≠ status)); by repeat constructor. }
  clearbody o1. destruct o1 as [st1 evs1 [c1|e1]]; simpl in *; [|done].
  set (o2 := match fetched_incidents f with
             | Some data => Cli.process_incidents data (Cli.first_run st1) st1
             | None => returned st1 [] false
             end).
  assert (Forall (λ ev, is_new_incident ev = false) (out_events o2)) as He2.
  { unfold o2. rewrite H1. destruct (fetched_incidents f) as [data|]; [|constructor].
    apply for_each_events_Forall. intros inc c st'. unfold Cli.process_incident.
    destruct (_ ≫= _) as [[iid ids]|e]; [|constructor]. simpl.
    destruct (Cli.known_incidents st' !! iid) as [known|]; [|constructor].
    destruct (decide _); [constructor|].
    set (us := sorted_reverse created_at_key _).
    assert (Forall (λ ev, is_new_incident ev = false)
              (out_events (for_each (Cli.print_update inc) us c st'))) as Hus.
    { apply for_each_events_Forall. intros u c' st''. unfold Cli.print_update. cbv zeta.
      destruct (_ ≫= _) as [[time name]|e]; by repeat constructor. }
    by destruct (for_each (Cli.print_update inc) us c st') as [st3 evs3 [c3|e3]]. }
  clearbody o2. destruct o2 as [st2 evs2 [c2|e2]]; simpl in *; by apply Forall_app.
Qed.

(** ** Series of polls *)

(** X7. [poll_loop] of the server ends at the first iteration that raises:
    the ticks after it change nothing and push nothing. *)
Theorem poll_loop_stops_at_exception (pre post : list fetched) (f : fetched)
    (st : Server.globals) :
  is_ok (out_result (Server.poll_iteration f (Server.poll_loop pre st).1)) = false →
  Server.poll_loop (pre ++ f :: post) st = Server.poll_loop (pre ++ [f]) st.
Proof.
  revert st. induction pre as [|p pre IH]; intros st Hraise; simpl in *.
  - by destruct (Server.poll_iteration f st) as [st1 evs1 [c1|e1]].
  - destruct (Server.poll_iteration p st) as [st1 evs1 [c1|e1]]; simpl in *; [|done].
    rewrite IH; [done|].
    by destruct (Server.poll_loop pre st1).
Qed.
End TrackedIds.

(** ** Documents delivered again, and the first documents *)

Lemma for_each_keeps_on {S E A B : Type} (body : A → bool → S → outcome S E)
    (P : A → Prop) (f : S → B) :
  (∀ x c st, P x → f (out_state (body x c st)) = f st) →
  ∀ l c st, Forall P l → f (out_state (for_each body l c st)) = f st.
Proof.
  intros Hbody l c st Hall. revert c st.
  induction Hall as [|x l Hx _ IH]; intros c st; [done|]. simpl.
  pose proof (Hbody x c st Hx) as Hfx.
  destruct (body x c st) as [st1 evs1 [c1|e1]]; simpl in *; [|done].
  by rewrite IH.
Qed.

(** The other IDs of a list without repetition. *)
Lemma NoDup_ids_other {A : Type} (id : A → option string) (x : A) (l : list A)
    (i : string) :
  id x = Some i → NoDup (id <$> x :: l) → Forall (λ y, id y ≠ Some i) l.
Proof.
  intros Hid Hnodup. apply NoDup_cons in Hnodup as [Hnotin _].
  apply Forall_forall. intros y Hy Hyi. apply Hnotin. rewrite Hid, <- Hyi.
  by apply list_elem_of_fmap_2.
Qed.

(** A descriptor whose status and name are the recorded ones changes and
    prints nothing. *)
Lemma process_component_same (comp : dict) (c : bool) (st : Cli.monitor)
    (cid name status : string) :
  comp !! "id" = Some cid → comp !! "name" = Some name → comp !! "status" = Some status →
  Cli.component_statuses st !! cid = Some status →
  Cli.component_names st !! cid = Some name →
  Cli.process_component comp c st = returned st [] c.
Proof.
  intros Hid Hname Hstatus Hst Hnm.
  rewrite (process_component_complete _ _ _ _ _ _ Hid Hname Hstatus). simpl.
  rewrite Hst. rewrite decide_False by (by intros ?).
  rewrite !insert_id by done. by destruct st.
Qed.

Lemma process_component_frame_names (comp : dict) (c : bool) (st : Cli.monitor)
    (cid : string) :
  comp !! "id" ≠ Some cid →
  (Cli.component_statuses (out_state (Cli.process_component comp c st)) !! cid,
   Cli.component_names (out_state (Cli.process_component comp c st)) !! cid)
  = (Cli.component_statuses st !! cid, Cli.component_names st !! cid).
Proof.
  intros Hne. unfold Cli.process_component, getitem.
  destruct (comp !! "id") as [cid'|] eqn:Hid; simpl; [|done].
  destruct (comp !! "name") as [name|]; simpl; [|done].
  destruct (comp !! "status") as [status|]; simpl; [|done].
  assert (cid' ≠ cid) by congruence.
  destruct (Cli.component_statuses st !! cid') as [old|];
    [destruct (decide (old ≠ status))|]; simpl; by rewrite !lookup_insert_ne.
Qed.

(** [comp] is recorded in [st] with its own status and name. *)
Lemma process_components_recorded_silent (comps : list dict) (c : bool)
    (st : Cli.monitor) :
  (∀ comp, comp ∈ comps → ∃ cid name status,
     comp !! "id" = Some cid ∧ comp !! "name" = Some name
     ∧ comp !! "status" = Some status
     ∧ Cli.component_statuses st !! cid = Some status
     ∧ Cli.component_names st !! cid = Some name) →
  for_each Cli.process_component comps c st = returned st [] c.
Proof.
  intros Hrec. revert c. induction comps as [|comp comps IH]; intros c; [done|].
  destruct (Hrec comp) as (cid & name & status & Hid & Hname & Hstatus & Hst & Hnm);
    [by left|].
  simpl. rewrite (process_component_same _ _ _ _ _ _ Hid Hname Hstatus Hst Hnm).
  simpl. rewrite IH; [done|]. intros comp' Hin. apply Hrec. by right.
Qed.

Lemma process_components_records (comps : list dict) (fl : bool) (st : Cli.monitor) :
  Forall component_complete comps →
  NoDup ((λ comp : dict, comp !! "id") <$> comps) →
  ∀ comp, comp ∈ comps → ∃ cid name status,
    comp !! "id" = Some cid ∧ comp !! "name" = Some name
    ∧ comp !! "status" = Some status
    ∧ Cli.component_statuses
        (out_state (for_each Cli.process_component comps fl st)) !! cid = Some status
    ∧ Cli.component_names
        (out_state (for_each Cli.process_component comps fl st)) !! cid = Some name.
Proof.
  intros Hall. revert fl st.
  induction Hall as [|comp comps Hc Hall IH]; intros fl st Hnodup comp' Hin;
    [by apply elem_of_nil in Hin|].
  destruct Hc as ([cid Hid] & [name Hname] & [status Hstatus]).
  pose proof (NoDup_ids_other (λ comp : dict, comp !! "id") comp comps cid Hid Hnodup)
    as Hother.
  apply NoDup_cons in Hnodup as [_ Hnodup].
  simpl. pose proof (process_component_complete comp fl st cid name status
                       Hid Hname Hstatus) as Hbody.
  destruct (Cli.process_component comp fl st) as [st1 evs1 [c1|e1]] eqn:Hpc; simpl.
  2:{ simpl in Hbody. destruct (Cli.component_statuses st !! cid) as [old|];
        [destruct (decide (old ≠ status))|]; done. }
  apply elem_of_cons in Hin as [->|Hin]; [|by apply IH].
  exists cid, name, status. split; [done|]. split; [done|]. split; [done|].
  pose proof (for_each_keeps_on Cli.process_component
                (λ comp : dict, comp !! "id" ≠ Some cid)
                (λ st, (Cli.component_statuses st !! cid, Cli.component_names st !! cid))
                (λ x c st0 Hx, process_component_frame_names x c st0 cid Hx)
                comps c1 st1 Hother) as Hframe.
  injection Hframe as -> ->.
  assert (st1 = Cli.set_component_statuses
                  (Cli.set_component_names st (<[cid := name]> (Cli.component_names st)))
                  (<[cid := status]> (Cli.component_statuses st))) as ->.
  { simpl in Hbody. destruct (Cli.component_statuses st !! cid) as [old|];
      [destruct (decide (old ≠ status))|]; by injection Hbody. }
  simpl. by rewrite !lookup_insert_eq.
Qed.

(** X8. A summary delivered a second time is silent: when its component
    descriptors carry their three fields and no ID twice, processing it
    again right after it was processed prints nothing, returns [False] and
    leaves the state as it is. *)
Theorem same_summary_again_is_silent (data : summary_data) (st : Cli.monitor) :
  Forall component_complete (default [] (components data)) →
  NoDup ((λ comp : dict, comp !! "id") <$> default [] (components data)) →
  let st1 := out_state (Cli.process_summary data st) in
  Cli.process_summary data st1 = returned st1 [] false.
Proof.
  intros Hall Hnodup st1. apply process_components_recorded_silent.
  by apply process_components_records.
Qed.

Section DeliveredAgain.
Context `{DateTimeLib}.

(** A descriptor none of whose updates is new changes and prints nothing. *)
Lemma process_incident_seen (suppress : bool) (inc : incident) (c : bool)
    (st : Cli.monitor) (iid : string) (ids : gset string) (r : Cli.incident_record) :
  inc_fields inc !! "id" = Some iid →
  update_id_set (default [] (incident_updates inc)) = Ok ids →
  Cli.known_incidents st !! iid = Some r →
  ids ⊆ Cli.seen_update_ids r →
  Cli.process_incident suppress inc c st = returned st [] c.
Proof.
  intros Hid Hset Hknown Hsub.
  rewrite (process_incident_known _ _ _ _ _ _ _ Hid Hset Hknown).
  pose proof (subseteq_empty_difference_L _ _ Hsub) as Hempty.
  apply (new_ids_empty _ _ _ Hset) in Hempty. by rewrite Hempty.
Qed.

Lemma process_incidents_recorded_silent (suppress : bool) (incs : list incident)
    (c : bool) (st : Cli.monitor) :
  (∀ inc, inc ∈ incs → ∃ iid ids r,
     inc_fields inc !! "id" = Some iid
     ∧ update_id_set (default [] (incident_updates inc)) = Ok ids
     ∧ Cli.known_incidents st !! iid = Some r
     ∧ ids ⊆ Cli.seen_update_ids r) →
  for_each (Cli.process_incident suppress) incs c st = returned st [] c.
Proof.
  intros Hrec. revert c. induction incs as [|inc incs IH]; intros c; [done|].
  destruct (Hrec inc) as (iid & ids & r & Hid & Hset & Hknown & Hsub); [by left|].
  simpl. rewrite (process_incident_seen _ _ _ _ _ _ _ Hid Hset Hknown Hsub).
  simpl. rewrite IH; [done|]. intros inc' Hin. apply Hrec. by right.
Qed.

(** After a complete descriptor was processed, its record holds all the
    update IDs delivered with it. *)
Lemma process_incident_records (suppress : bool) (inc : incident) (c : bool)
    (st : Cli.monitor) :
  incident_complete inc →
  ∃ iid ids r,
    inc_fields inc !! "id" = Some iid
    ∧ update_id_set (default [] (incident_updates inc)) = Ok ids
    ∧ Cli.known_incidents (out_state (Cli.process_incident suppress inc c st)) !! iid
      = Some r
    ∧ ids ⊆ Cli.seen_update_ids r.
Proof.
  intros ([iid Hid] & [name Hname] & Hups).
  assert (Forall (λ u, is_Some (u !! "id")) (default [] (incident_updates inc))) as Hids.
  { eapply Forall_impl; [exact Hups|]. by intros u [? _]. }
  destruct (update_id_set_ok _ Hids) as [ids Hset].
  exists iid, ids.
  destruct (Cli.known_incidents st !! iid) as [known|] eqn:Hknown.
  - destruct (List.filter (is_new (Cli.seen_update_ids known))
                (default [] (incident_updates inc))) as [|u us] eqn:Hnew.
    + exists known. split; [done|]. split; [done|].
      pose proof (proj2 (new_ids_empty _ _ (Cli.seen_update_ids known) Hset) Hnew)
        as Hempty.
      apply empty_difference_subseteq_L in Hempty.
      by rewrite (process_incident_seen _ _ _ _ _ _ _ Hid Hset Hknown).
    + destruct (process_incident_new_updates suppress inc c st iid name known
                  Hid Hname Hids Hknown) as (ids' & evs & Hset' & _ & ->);
        [by rewrite Hnew| |].
      { apply Forall_forall. intros v Hv. apply list_elem_of_In, filter_In in Hv as [Hv _].
        rewrite Forall_forall in Hups. apply Hups. by apply list_elem_of_In. }
      rewrite Hset in Hset'. injection Hset' as <-.
      eexists. split; [done|]. split; [done|]. simpl.
      split; [by rewrite lookup_insert_eq|done].
  - rewrite (process_incident_unknown _ _ _ _ _ _ Hid Hset Hknown). simpl.
    eexists. split; [done|]. split; [done|].
    destruct suppress; [|rewrite (getitem_Some _ _ _ Hname)]; simpl;
      (split; [by rewrite lookup_insert_eq|done]).
Qed.

Lemma process_incidents_records (suppress : bool) (incs : list incident) (fl : bool)
    (st : Cli.monitor) :
  Forall incident_complete incs →
  NoDup ((λ inc : incident, inc_fields inc !! "id") <$> incs) →
  ∀ inc, inc ∈ incs → ∃ iid ids r,
    inc_fields inc !! "id" = Some iid
    ∧ update_id_set (default [] (incident_updates inc)) = Ok ids
    ∧ Cli.known_incidents
        (out_state (for_each (Cli.process_incident suppress) incs fl st)) !! iid = Some r
    ∧ ids ⊆ Cli.seen_update_ids r.
Proof.
  intros Hall. revert fl st.
  induction Hall as [|inc incs Hc Hall IH]; intros fl st Hnodup inc' Hin;
    [by apply elem_of_nil in Hin|].
  destruct (process_incident_records suppress inc fl st Hc)
    as (iid & ids & r & Hid & Hset & Hrec & Hsub).
  pose proof (NoDup_ids_other (λ inc : incident, inc_fields inc !! "id") inc incs iid
                Hid Hnodup) as Hother.
  apply NoDup_cons in Hnodup as [_ Hnodup].
  simpl. pose proof (process_incident_complete_ok suppress inc fl st Hc) as Hok.
  destruct (Cli.process_incident suppress inc fl st) as [st1 evs1 [c1|e1]]; [|done].
  simpl in *. apply elem_of_cons in Hin as [->|Hin]; [|by apply IH].
  exists iid, ids, r. split; [done|]. split; [done|]. split; [|done].
  by rewrite process_incidents_frame.
Qed.

(** X9. An incidents document delivered a second time is silent: when its
    descriptors are complete and carry no ID twice, processing it again
    right after it was processed, with the suppress flag on or off, prints
    nothing, returns [False] and leaves the state as it is. *)
Theorem same_incidents_again_is_silent (data : incidents_data) (suppress suppress' : bool)
    (st : Cli.monitor) :
  Forall incident_complete (default [] (incidents data)) →
  NoDup ((λ inc : incident, inc_fields inc !! "id") <$> default [] (incidents data)) →
  let st1 := out_state (Cli.process_incidents data suppress st) in
  Cli.process_incidents data suppress' st1 = returned st1 [] false.
Proof.
  intros Hall Hnodup st1. apply process_incidents_recorded_silent.
  by apply process_incidents_records.
Qed.

(** Descriptors with fresh, distinct IDs: nothing is printed for them when
    new incidents are suppressed, and one "NEW INCIDENT" each when they are
    not. *)
Lemma process_components_fresh_silent (comps : list dict) (fl : bool) (st : Cli.monitor) :
  NoDup ((λ comp : dict, comp !! "id") <$> comps) →
  Forall (λ comp : dict, ∀ cid, comp !! "id" = Some cid →
                                Cli.component_statuses st !! cid = None) comps →
  out_events (for_each Cli.process_component comps fl st) = [].
Proof.
  revert fl st. induction comps as [|comp comps IH]; intros fl st Hnodup Hfresh; [done|].
  apply Forall_cons in Hfresh as [Hfresh_c Hfresh]. simpl.
  destruct (decide (component_complete comp)) as [Hc|Hc].
  - destruct Hc as ([cid Hid] & [name Hname] & [status Hstatus]).
    pose proof (NoDup_ids_other (λ comp : dict, comp !! "id") comp comps cid Hid Hnodup)
      as Hother.
    apply NoDup_cons in Hnodup as [_ Hnodup].
    rewrite (process_component_complete _ _ _ _ _ _ Hid Hname Hstatus).
    rewrite (Hfresh_c cid Hid). simpl. apply IH; [done|].
    apply Forall_forall. intros comp' Hin cid' Hid'. simpl.
    rewrite lookup_insert_ne.
    + rewrite Forall_forall in Hfresh. by apply (Hfresh comp').
    + rewrite Forall_forall in Hother. intros <-. by apply (Hother comp').
  - destruct (process_component_incomplete comp fl st Hc) as [k ->]. done.
Qed.

Lemma process_incidents_fresh (suppress : bool) (incs : list incident) (fl : bool)
    (st : Cli.monitor) :
  NoDup ((λ inc : incident, inc_fields inc !! "id") <$> incs) →
  Forall (λ inc : incident, ∀ iid, inc_fields inc !! "id" = Some iid →
                                   Cli.known_incidents st !! iid = None) incs →
  (suppress = true → out_events (for_each (Cli.process_incident suppress) incs fl st) = [])
  ∧ (suppress = false → Forall incident_complete incs →
       out_events (for_each (Cli.process_incident suppress) incs fl st)
       = new_incident_event <$> incs).
Proof.
  revert fl st. induction incs as [|inc incs IH]; intros fl st Hnodup Hfresh; [done|].
  apply Forall_cons in Hfresh as [Hfresh_i Hfresh]. simpl.
  destruct (inc_fields inc !! "id") as [iid|] eqn:Hid.
  2:{ rewrite (process_incident_no_id suppress inc fl st) by by left.
      split; [done|]. intros _ Hall. apply Forall_cons in Hall as [([? ?] & _) _].
      congruence. }
  destruct (decide (Forall (λ u : dict, is_Some (u !! "id"))
                      (default [] (incident_updates inc)))) as [Hids|Hids].
  2:{ rewrite (process_incident_no_id suppress inc fl st) by by right.
      split; [done|]. intros _ Hall. apply Forall_cons in Hall as [(_ & _ & Hups) _].
      destruct Hids. eapply Forall_impl; [exact Hups|]. by intros u [? _]. }
  destruct (update_id_set_ok _ Hids) as [ids Hset].
  pose proof (NoDup_ids_other (λ inc : incident, inc_fields inc !! "id") inc incs iid
                Hid Hnodup) as Hother.
  apply NoDup_cons in Hnodup as [_ Hnodup].
  rewrite (process_incident_unknown _ _ _ _ _ _ Hid Hset (Hfresh_i iid eq_refl)).
  set (st1 := Cli.set_known_incidents st _).
  assert (Forall (λ inc : incident, ∀ iid, inc_fields inc !! "id" = Some iid →
                    Cli.known_incidents st1 !! iid = None) incs) as Hfresh1.
  { apply Forall_forall. intros inc' Hin iid' Hid'. unfold st1. simpl.
    rewrite lookup_insert_ne.
    - rewrite Forall_forall in Hfresh. by apply (Hfresh inc').
    - rewrite Forall_forall in Hother. intros <-. by apply (Hother inc'). }
  destruct suppress; simpl.
  - split; [|done]. intros _. by apply IH.
  - split; [done|]. intros _ Hall. apply Forall_cons in Hall as [Hc Hall].
    destruct Hc as (_ & [name Hname] & _).
    rewrite (getitem_Some _ _ _ Hname). simpl.
    destruct (IH true st1 Hnodup Hfresh1) as [_ Hrest].
    rewrite (Hrest eq_refl Hall). f_equal.
    unfold new_incident_event. by rewrite (get_Some _ _ _ _ Hname).
Qed.

(** X10. The first poll of a monitor is silent: when neither document
    carries an ID twice, the poll made in the initial state prints nothing,
    whether it returns or raises. *)
Theorem first_poll_is_silent (f : fetched) (interval : option Z) :
  NoDup (component_ids f) →
  NoDup (incident_ids f) →
  out_events (Cli.poll f (Cli.init interval)) = [].
Proof.
  intros Hcomps Hincs. unfold Cli.poll, component_ids, incident_ids in *.
  set (o1 := match fetched_summary f with
             | Some data => Cli.process_summary data (Cli.init interval)
             | None => returned (Cli.init interval) [] false
             end).
  assert (out_events o1 = []
          ∧ Cli.first_run (out_state o1) = true
          ∧ Cli.known_incidents (out_state o1) = ∅) as (He1 & Hfr1 & Hk1).
  { unfold o1. destruct (fetched_summary f) as [data|]; simpl in *; [|done].
    split; [|split].
    - apply process_components_fresh_silent; [done|].
      apply Forall_forall. by intros comp _ cid _.
    - by rewrite process_summary_first_run.
    - exact (proj2 (process_components_keep (default [] (components data)) false
                      (Cli.init interval))). }
  clearbody o1. destruct o1 as [st1 evs1 [c1|e1]]; simpl in *; [|done]. subst evs1.
  set (o2 := match fetched_incidents f with
             | Some data => Cli.process_incidents data (Cli.first_run st1) st1
             | None => returned st1 [] false
             end).
  assert (out_events o2 = []) as He2.
  { unfold o2. rewrite Hfr1. destruct (fetched_incidents f) as [data|]; simpl in *; [|done].
    apply process_incidents_fresh; [done| |done].
    apply Forall_forall. intros inc _ iid _. by rewrite Hk1. }
  clearbody o2. by destruct o2 as [st2 evs2 [c2|e2]]; simpl in *; subst.
Qed.

(** X11. The suppression of the first run is spent by the first poll that
    returns, whatever it fetched: when the first tick fetched nothing, the
    incidents of the second tick (complete, no ID twice) are all notified as
    new, one "NEW INCIDENT" each in the order of the document, whereas the
    same document fetched at the first tick is taken in silently. *)
Theorem failed_first_tick_spends_suppression (incs : list incident) (interval : option Z) :
  Forall incident_complete incs →
  NoDup ((λ inc : incident, inc_fields inc !! "id") <$> incs) →
  (Cli.run [tick_nothing; tick_incidents incs] (Cli.init interval)).2
  = new_incident_event <$> incs
  ∧ (Cli.run [tick_incidents incs] (Cli.init interval)).2 = [].
Proof.
  intros Hall Hnodup.
  assert (Forall (λ inc : incident, ∀ iid, inc_fields inc !! "id" = Some iid →
            (∅ : gmap string Cli.incident_record) !! iid = None) incs) as Hfresh.
  { apply Forall_forall. by intros inc _ iid _. }
  split.
  - simpl. unfold Cli.poll at 1. simpl. unfold Cli.process_incidents. simpl.
    destruct (process_incidents_fresh false incs false
                (Cli.set_first_run (Cli.init interval) false) Hnodup Hfresh) as [_ Hev].
    pose proof (process_incidents_ok false incs false
                  (Cli.set_first_run (Cli.init interval) false) Hall) as Hok.
    destruct (for_each _ incs false _) as [st2 evs2 [c2|e2]]; [|done].
    simpl in *. rewrite app_nil_r. by apply Hev.
  - simpl. unfold Cli.poll at 1. simpl. unfold Cli.process_incidents. simpl.
    destruct (process_incidents_fresh true incs false (Cli.init interval) Hnodup Hfresh)
      as [Hev _].
    destruct (for_each _ incs false _) as [st2 evs2 [c2|e2]]; simpl in *;
      rewrite ?app_nil_r; by apply Hev.
Qed.
End DeliveredAgain.

(** ** After a poll that raised *)

Section AfterRaise.
Context `{DateTimeLib}.

Lemma process_incidents_leaves_components (data : incidents_data) (suppress : bool)
    (st : Cli.monitor) :
  let st' := out_state (Cli.process_incidents data suppress st) in
  Cli.component_statuses st' = Cli.component_statuses st
  ∧ Cli.component_names st' = Cli.component_names st
  ∧ Cli.interval st' = Cli.interval st.
Proof.
  intros st'.
  pose proof (for_each_keeps (Cli.process_incident suppress)
                (λ st, (Cli.component_statuses st, Cli.component_names st,
                        Cli.interval st))) as Hkeep.
  specialize (Hkeep) with (l := default [] (incidents data)) (c := false) (st := st).
  fold (Cli.process_incidents data suppress st) in Hkeep. fold st' in Hkeep.
  assert ((Cli.component_statuses st', Cli.component_names st', Cli.interval st')
          = (Cli.component_statuses st, Cli.component_names st, Cli.interval st)) as Heq.
  { apply Hkeep. intros inc c st0. unfold Cli.process_incident.
    destruct (_ ≫= _) as [[iid ids]|e]; [|done]. simpl.
    destruct (Cli.known_incidents st0 !! iid) as [known|].
    - destruct (decide _); [done|].
      match goal with |- context [for_each _ ?us c st0] =>
        pose proof (print_updates_state inc us c st0) as Hst;
        destruct (for_each (Cli.print_update inc) us c st0) as [st3 evs3 [c3|e3]]
      end; simpl in *; by subst.
    - destruct suppress; [done|]. by destruct (getitem _ _). }
  by injection Heq as -> -> ->.
Qed.


(** X6. [run] goes on after a poll that raised, from the state that poll
    left, in which the work done before the exception is kept: when the
    incidents pass of a tick raises after its summary (three fields in every
    descriptor, no ID twice) was processed, the statuses that summary
    recorded stay recorded, and the next tick, delivering the same summary,
    reports no component again: it prints what its incidents pass prints,
    run with the first-run flag the raising tick started with, and [run]
    prints the notifications of the raising poll, then these, then those of
    the ticks that follow. *)
Theorem run_goes_on_after_raise (f g : fetched) (rest : list fetched)
    (data : summary_data) (st : Cli.monitor) :
  fetched_summary f = Some data →
  fetched_summary g = Some data →
  Forall component_complete (default [] (components data)) →
  NoDup ((λ comp : dict, comp !! "id") <$> default [] (components data)) →
  is_ok (out_result (Cli.poll f st)) = false →
  let st1 := out_state (Cli.poll f st) in
  let o2 := match fetched_incidents g with
            | Some idata => Cli.process_incidents idata (Cli.first_run st) st1
            | None => returned st1 [] false
            end in
  Cli.component_statuses st1
  = Cli.component_statuses (out_state (Cli.process_summary data st))
  ∧ out_events (Cli.poll g st1) = out_events o2
  ∧ (Cli.run (f :: g :: rest) st).2
    = out_events (Cli.poll f st) ++ out_events o2
      ++ (Cli.run rest (out_state (Cli.poll g st1))).2.
Proof.
  intros Hf Hg Hall Hnodup Hraise st1 o2.
  pose proof (process_components_ok _ false st Hall) as Hok.
  pose proof (process_components_records _ false st Hall Hnodup) as Hrec.
  fold (Cli.process_summary data st) in Hok, Hrec.
  pose proof (process_summary_first_run data st) as Hfr.
  assert (Cli.component_statuses st1
          = Cli.component_statuses (out_state (Cli.process_summary data st))
          ∧ Cli.component_names st1
            = Cli.component_names (out_state (Cli.process_summary data st))
          ∧ Cli.first_run st1 = Cli.first_run st) as (Hst & Hnm & Hfirst).
  { subst st1. revert Hraise. unfold Cli.poll. rewrite Hf.
    destruct (Cli.process_summary data st) as [sa evsa [ca|ea]]; simpl in *; [|done].
    destruct (fetched_incidents f) as [idata|]; simpl; [|done].
    pose proof (process_incidents_leaves_components idata (Cli.first_run sa) sa)
      as (Hs & Hn & _).
    pose proof (process_incidents_first_run idata (Cli.first_run sa) sa) as Hfr2.
    destruct (Cli.process_incidents idata (Cli.first_run sa) sa) as [sb evsb [cb|eb]];
      simpl in *; [done|]. intros _. by rewrite Hfr2. }
  assert (Cli.process_summary data st1 = returned st1 [] false) as Hsilent.
  { apply process_components_recorded_silent. intros comp Hin.
    destruct (Hrec comp Hin) as (cid & name & status & Hid & Hname & Hstatus & Hs & Hn).
    exists cid, name, status. by rewrite Hst, Hnm. }
  assert (out_events (Cli.poll g st1) = out_events o2) as Hg2.
  { unfold Cli.poll. rewrite Hg, Hsilent. simpl. rewrite Hfirst. fold o2.
    by destruct (out_result o2). }
  split; [done|]. split; [done|].
  simpl. fold st1. rewrite Hg2.
  by destruct (Cli.run rest (out_state (Cli.poll g st1))).
Qed.
End AfterRaise.

Lemma run_goes_on_after_raise_witness :
  let st1 := out_state (Cli.poll (H := utc_datetime) tick_nameless_incident tracking_api) in
  let o2 := Cli.process_incidents (H := utc_datetime)
              {| incidents := Some [outage "resolved" [update_c; update_b]] |} false st1 in
  Cli.component_statuses st1
  = Cli.component_statuses
      (out_state (Cli.process_summary {| components := Some [api_major_outage] |}
                    tracking_api))
  ∧ out_events (Cli.poll (H := utc_datetime) tick_same_summary st1) = out_events o2
  ∧ (Cli.run (H := utc_datetime) [tick_nameless_incident; tick_same_summary]
       tracking_api).2
    = out_events (Cli.poll (H := utc_datetime) tick_nameless_incident tracking_api)
      ++ out_events o2
      ++ (Cli.run (H := utc_datetime) []
            (out_state (Cli.poll (H := utc_datetime) tick_same_summary st1))).2.
Proof.
  apply (run_goes_on_after_raise (H := utc_datetime) tick_nameless_incident
           tick_same_summary [] {| components := Some [api_major_outage] |} tracking_api).
  - reflexivity.
  - reflexivity.
  - repeat constructor; by eexists.
  - apply (bool_decide_unpack _). by vm_compute.
  - by vm_compute.
Defined.

(** What the model prints for the ticks of the previous statement. *)
Example raising_tick_printed :
  (Cli.run (H := utc_datetime) [tick_nameless_incident; tick_same_summary] tracking_api).2
  = [Cli.ComponentStatusChange "API" "operational" "major_outage";
     Cli.IncidentUpdate "Outage" "resolved" "The incident has been resolved."
       "2024-01-01 02:00:00";
     Cli.IncidentUpdate "Outage" "identified" "The cause has been identified."
       "2024-01-01 01:00:00"].
Proof. by vm_compute. Qed.

(** ** The order of updates with equal creation times *)



(** * The fetcher *)

Lemma set_if_truthy_lookup (k k' : string) (v : option string) (headers : dict) :
  Http.set_if_truthy k v headers !! k'
  = if decide (k = k')
    then (if Http.truthy v then v else headers !! k')
    else headers !! k'.
Proof.
  unfold Http.set_if_truthy. destruct v as [s|]; [|by case_decide].
  destruct (Http.truthy (Some s)); [|by case_decide].
  rewrite lookup_insert. by case_decide.
Qed.

Lemma request_headers_spec (v : Http.validators) :
  Http.request_headers v !! "If-None-Match"
  = (if Http.truthy (Http.etag v) then Http.etag v else None)
  ∧ Http.request_headers v !! "If-Modified-Since"
    = (if Http.truthy (Http.modified v) then Http.modified v else None).
Proof.
  unfold Http.request_headers. rewrite !set_if_truthy_lookup.
  split.
  - rewrite decide_False by done. rewrite decide_True by done.
    by rewrite lookup_empty.
  - rewrite decide_True by done. rewrite decide_False by done.
    by rewrite lookup_empty.
Qed.

Lemma fetch_keeps_truthy {A : Type} (v : Http.validators) (a : Http.answer A) :
  (Http.truthy (Http.etag v) = true → Http.truthy (Http.etag (Http.fetch v a).2) = true)
  ∧ (Http.truthy (Http.modified v) = true →
       Http.truthy (Http.modified (Http.fetch v a).2) = true).
Proof.
  unfold Http.fetch. destruct a as [r|]; [|done].
  destruct (Http.status r =? 304); [done|].
  destruct (Http.status r =? 200); [|done]. simpl. unfold Http.or_else.
  split; intros Hv.
  - by destruct (Http.truthy (Http.header_etag r)) eqn:Hh.
  - by destruct (Http.truthy (Http.header_last_modified r)) eqn:Hh.
Qed.

(** X13. Once the monitor holds an entity tag for an endpoint it keeps
    holding one, whatever the later answers are, and sends it as
    [If-None-Match] with every later request; the same for the modification
    time and [If-Modified-Since]. *)
Theorem conditional_requests_persist {A : Type} (v : Http.validators)
    (answers : list (Http.answer A)) :
  let v' := Http.fetch_all v answers in
  (Http.truthy (Http.etag v) = true →
     Http.truthy (Http.etag v') = true
     ∧ Http.request_headers v' !! "If-None-Match" = Http.etag v')
  ∧ (Http.truthy (Http.modified v) = true →
       Http.truthy (Http.modified v') = true
       ∧ Http.request_headers v' !! "If-Modified-Since" = Http.modified v').
Proof.
  intros v'.
  assert ((Http.truthy (Http.etag v) = true → Http.truthy (Http.etag v') = true)
          ∧ (Http.truthy (Http.modified v) = true →
               Http.truthy (Http.modified v') = true)) as [He Hm].
  { unfold v', Http.fetch_all. clear v'. revert v.
    induction answers as [|a answers IH]; intros v; [done|]. simpl.
    destruct (fetch_keeps_truthy v a) as [He Hm].
    destruct (IH (Http.fetch v a).2) as [He' Hm']. split; intros Hv; auto. }
  destruct (request_headers_spec v') as [Hhe Hhm].
  split; intros Hv.
  - split; [by apply He|]. by rewrite Hhe, (He Hv).
  - split; [by apply Hm|]. by rewrite Hhm, (Hm Hv).
Qed.

Lemma conditional_requests_persist_witness :
  Http.request_headers
    (Http.fetch_all (Http.summary_validators session_after_first_poll)
       [not_modified; fresh_without_headers api_operational; server_error; Http.Failed])
    !! "If-None-Match" = Some "W/summary-1".
Proof.
  destruct (conditional_requests_persist
              (Http.summary_validators session_after_first_poll)
              [not_modified; fresh_without_headers api_operational; server_error;
               Http.Failed]) as [[_ Hsent] _]; [reflexivity|].
  by rewrite Hsent.
Defined.

Section HttpPoll.
Context `{DateTimeLib}.

(** X14. [poll] with its requests is the engine's [poll] on the documents
    of the answers that came with status 200 and a non-empty body.  The
    validators of the summary are those [fetch] returned; the request for
    the incidents is made, and its validators stored, only when
    [process_summary] returned. *)
Theorem http_poll_is_poll (a_summary : Http.answer summary_data)
    (a_incidents : Http.answer incidents_data) (s : Http.session) :
  let o := Http.poll a_summary a_incidents s in
  let o' := Cli.poll (Http.fetched_of s a_summary a_incidents) (Http.monitor s) in
  Http.monitor (out_state o) = out_state o'
  ∧ out_events o = out_events o'
  ∧ out_result o = out_result o'
  ∧ Http.summary_validators (out_state o)
    = (Http.fetch (Http.summary_validators s) a_summary).2
  ∧ Http.incidents_validators (out_state o)
    = (if is_ok (out_result
                   (match Http.document (Http.summary_validators s) a_summary with
                    | Some data => Cli.process_summary data (Http.monitor s)
                    | None => returned (Http.monitor s) [] false
                    end))
       then (Http.fetch (Http.incidents_validators s) a_incidents).2
       else Http.incidents_validators s).
Proof.
  unfold Http.poll, Cli.poll, Http.fetched_of. simpl.
  destruct (match Http.document (Http.summary_validators s) a_summary with
            | Some data => Cli.process_summary data (Http.monitor s)
            | None => returned (Http.monitor s) [] false
            end) as [m1 evs1 [c1|e1]]; simpl; [|done].
  destruct (match Http.document (Http.incidents_validators s) a_incidents with
            | Some data => Cli.process_incidents data (Cli.first_run m1) m1
            | None => returned m1 [] false
            end) as [m2 evs2 [c2|e2]]; simpl; done.
Qed.

(** X15. A tick in which neither request is answered with status 200 (a
    304, an error status, a timeout) prints nothing and keeps the tracked
    components and incidents and all four validators; it only clears the
    first-run flag. *)
Theorem tick_without_fresh_data (a_summary : Http.answer summary_data)
    (a_incidents : Http.answer incidents_data) (s : Http.session) :
  (Http.fetch (Http.summary_validators s) a_summary).1.1 ≠ 200 →
  (Http.fetch (Http.incidents_validators s) a_incidents).1.1 ≠ 200 →
  Http.poll a_summary a_incidents s
  = returned
      {| Http.summary_validators := Http.summary_validators s;
         Http.incidents_validators := Http.incidents_validators s;
         Http.monitor := Cli.set_first_run (Http.monitor s) false |}
      [] false.
Proof.
  intros Hs Hi.
  assert (∀ A (v : Http.validators) (a : Http.answer A),
            (Http.fetch v a).1.1 ≠ 200 →
            (Http.fetch v a).2 = v ∧ Http.document v a = None) as Hquiet.
  { intros A v a. unfold Http.document, Http.fetch. destruct a as [r|]; [|done].
    destruct (Http.status r =? 304) eqn:H304; [done|].
    destruct (Http.status r =? 200) eqn:H200; simpl; [done|].
    by rewrite H200. }
  destruct (Hquiet _ _ _ Hs) as [Hvs Hds]. destruct (Hquiet _ _ _ Hi) as [Hvi Hdi].
  unfold Http.poll. simpl. rewrite Hvs, Hds, Hvi. simpl. rewrite Hdi. simpl.
  unfold returned, Http.set_monitor. simpl. f_equal. f_equal.
  destruct (Http.monitor s) as [i k cs cn fr]. by destruct fr.
Qed.

End HttpPoll.

Lemma tick_without_fresh_data_witness :
  out_events (Http.poll (H := utc_datetime) not_modified server_error
                session_after_first_poll) = []
  ∧ Http.summary_validators
      (out_state (Http.poll (H := utc_datetime) not_modified server_error
                    session_after_first_poll))
    = Http.summary_validators session_after_first_poll.
Proof.
  rewrite (tick_without_fresh_data (H := utc_datetime) not_modified server_error
             session_after_first_poll); [done|done|done].
Defined.

(** * The log of the server *)

Lemma push_all_snoc (lines : list string) (line : string) (h : Hub.hub) :
  Hub.push_all (lines ++ [line]) h = Hub.push_log line (Hub.push_all lines h).
Proof. unfold Hub.push_all. by rewrite foldl_app. Qed.

Lemma push_log_latest (line : string) (h : Hub.hub) :
  (length (Hub.log_lines h) ≤ 500)%nat →
  Hub.log_lines (Hub.push_log line h)
  = drop (length (Hub.log_lines h ++ [line]) - 500) (Hub.log_lines h ++ [line]).
Proof.
  intros Hlen. unfold Hub.push_log. simpl. rewrite length_app. simpl.
  destruct (Nat.ltb_spec 500 (length (Hub.log_lines h) + 1)) as [Hlt|Hge].
  - replace (length (Hub.log_lines h) + 1 - 500)%nat with 1%nat by lia.
    by destruct (Hub.log_lines h ++ [line]).
  - by replace (length (Hub.log_lines h) + 1 - 500)%nat with 0%nat by lia.
Qed.

(** X16. The log holds the latest 500 lines: after any series of
    [push_log] on a log of at most 500 lines, [log_lines] is what was logged
    and pushed, in order, without all but its last 500 lines. *)
Theorem log_keeps_latest_lines (lines : list string) (h : Hub.hub) :
  (length (Hub.log_lines h) ≤ 500)%nat →
  Hub.log_lines (Hub.push_all lines h)
  = drop (length (Hub.log_lines h ++ lines) - 500) (Hub.log_lines h ++ lines)
  ∧ (length (Hub.log_lines (Hub.push_all lines h)) ≤ 500)%nat.
Proof.
  intros Hlen. induction lines as [|line lines IH] using rev_ind.
  - simpl. rewrite app_nil_r.
    replace (length (Hub.log_lines h) - 500)%nat with 0%nat by lia. done.
  - destruct IH as [IH Hbound]. rewrite push_all_snoc.
    rewrite push_log_latest by done. rewrite IH.
    set (all := Hub.log_lines h ++ lines) in *.
    assert (drop (length (drop (length all - 500) all ++ [line]) - 500)
              (drop (length all - 500) all ++ [line])
            = drop (length (Hub.log_lines h ++ lines ++ [line]) - 500)
                (Hub.log_lines h ++ lines ++ [line])) as Heq.
    { rewrite app_assoc. fold all.
      destruct (decide (length all < 500)%nat) as [Hlt|Hge].
      - by replace (length all - 500)%nat with 0%nat by lia.
      - rewrite <- (drop_app_le all [line] (length all - 500)) by lia.
        rewrite drop_drop. f_equal. rewrite length_drop, !length_app. simpl. lia. }
    split; [done|]. rewrite Heq, length_drop. lia.
Qed.

Lemma log_keeps_latest_lines_witness :
  Hub.log_lines (Hub.push_all ["a"; "b"] busy_hub)
  = drop 1 (replicate 499 "line" ++ ["a"; "b"]).
Proof.
  destruct (log_keeps_latest_lines ["a"; "b"] busy_hub) as [Hlog _].
  { vm_compute. lia. }
  rewrite Hlog. by vm_compute.
Defined.

(** X17. Every line pushed is put in the queue of every connected client,
    in order, whatever the log drops; a client that connects (its queue
    starting empty) finds in its queue exactly the lines pushed since. *)
Theorem clients_get_every_line (lines : list string) (h : Hub.hub) :
  Hub.clients (Hub.push_all lines h) = (λ q, q ++ lines) <$> Hub.clients h
  ∧ Hub.clients (Hub.push_all lines (Hub.connect h))
    = ((λ q, q ++ lines) <$> Hub.clients h) ++ [lines].
Proof.
  assert (∀ h, Hub.clients (Hub.push_all lines h) = (λ q, q ++ lines) <$> Hub.clients h)
    as Hall.
  { clear h. induction lines as [|line lines IH] using rev_ind; intros h.
    - simpl. rewrite <- (list_fmap_id (Hub.clients h)) at 1.
      apply list_fmap_ext. intros i q _. by rewrite app_nil_r.
    - rewrite push_all_snoc. unfold Hub.push_log at 1. simpl. rewrite IH.
      rewrite <- list_fmap_compose. apply list_fmap_ext. intros i q _. simpl.
      by rewrite app_assoc. }
  split; [apply Hall|]. rewrite Hall. simpl. by rewrite fmap_app.
Qed.

(** * Start-up *)

Lemma rstrip_slash_append_slash (s : string) :
  Startup.rstrip_slash (s +:+ "/") = Startup.rstrip_slash s.
Proof. induction s as [|c s IH]; [done|]. simpl. by rewrite IH. Qed.

Lemma rstrip_slash_no_trailing (s t : string) : Startup.rstrip_slash s ≠ t +:+ "/".
Proof.
  revert t. induction s as [|c s IH]; intros t; simpl.
  - by destruct t.
  - destruct (Ascii.eqb c "/" && String.eqb (Startup.rstrip_slash s) "") eqn:Hc;
      [by destruct t|].
    destruct t as [|c' t]; simpl.
    + intros [= -> Hs]. rewrite Hs in Hc. done.
    + intros [= _ Hs]. by apply (IH t).
Qed.

Lemma rstrip_slash_slashes (s : string) :
  ∃ n, s = Startup.rstrip_slash s +:+ slashes n.
Proof.
  induction s as [|c s [n IH]]; [by exists 0%nat|]. simpl.
  destruct (Ascii.eqb c "/" && String.eqb (Startup.rstrip_slash s) "") eqn:Hc.
  - apply andb_true_iff in Hc as [Hc Hs].
    apply Ascii.eqb_eq in Hc as ->. apply String.eqb_eq in Hs.
    exists (S n). rewrite Hs in IH. by rewrite IH at 1.
  - exists n. by rewrite IH at 1.
Qed.

(** X18. [base_url.rstrip("/")] takes away the slashes at the end of the
    [--url] argument and nothing else, so that the URLs requested do not
    depend on them: the argument with one more slash at its end gives the
    same two URLs. *)
Theorem trailing_slashes_do_not_matter (base_url : string) :
  (∃ n, base_url = Startup.rstrip_slash base_url +:+ slashes n)
  ∧ (∀ t, Startup.rstrip_slash base_url ≠ t +:+ "/")
  ∧ Startup.summary_url (base_url +:+ "/") = Startup.summary_url base_url
  ∧ Startup.incidents_url (base_url +:+ "/") = Startup.incidents_url base_url.
Proof.
  split; [apply rstrip_slash_slashes|]. split; [apply rstrip_slash_no_trailing|].
  unfold Startup.summary_url, Startup.incidents_url.
  by rewrite rstrip_slash_append_slash.
Qed.

Section BannerAndSleeps.
Context `{DateTimeLib}.



End BannerAndSleeps.

(** ** Timestamps *)

Lemma replace_Z_app (s t : string) :
  replace_Z (s +:+ t) = replace_Z s +:+ replace_Z t.
Proof.
  induction s as [|c s IH]; [done|]. simpl.
  destruct (Ascii.eqb c "Z"); simpl; by rewrite IH.
Qed.

(** X20. [parse_ts] hands [fromisoformat] a text without any capital Z:
    each one is replaced by "+00:00", and everything else is kept.  A
    timestamp whose only Z is its suffix becomes the same text with the
    suffix "+00:00", and a text without Z is handed on as it is. *)
Theorem replace_Z_spec (ts : string) :
  has_Z (replace_Z ts) = false
  ∧ (has_Z ts = false →
       replace_Z ts = ts ∧ replace_Z (ts +:+ "Z") = ts +:+ "+00:00").
Proof.
  split.
  - induction ts as [|c ts IH]; [done|]. simpl.
    destruct (Ascii.eqb c "Z") eqn:Hc; simpl; [done|]. by rewrite Hc.
  - intros Hno.
    assert (replace_Z ts = ts) as Hsame.
    { induction ts as [|c ts IH]; [done|]. simpl in *.
      apply orb_false_iff in Hno as [Hc Hno]. rewrite Hc. by rewrite IH. }
    split; [done|]. by rewrite replace_Z_app, Hsame.
Qed.

Lemma replace_Z_spec_witness :
  replace_Z "2024-01-01T00:00:00Z" = "2024-01-01T00:00:00+00:00".
Proof.
  destruct (replace_Z_spec "2024-01-01T00:00:00") as [_ Hts].
  destruct Hts as [_ Hsuffix]; [reflexivity|]. exact Hsuffix.
Defined.

(** * Replay *)

Lemma and_then_returns (p k : Replay.printed) :
  (Replay.and_then p k).2 = None →
  p.2 = None ∧ k.2 = None ∧ (Replay.and_then p k).1 = p.1 ++ k.1.
Proof. unfold Replay.and_then. destruct p as [ls [e|]]; simpl; by intros. Qed.

Lemma incident_names_app (ls1 ls2 : list Replay.line) :
  incident_names (ls1 ++ ls2) = incident_names ls1 ++ incident_names ls2.
Proof.
  induction ls1 as [|l ls1 IH]; [done|]. destruct l; simpl; by rewrite IH.
Qed.

Lemma print_each_no_names {A : Type} (body : A → Replay.printed) (l : list A) :
  (∀ x, incident_names (body x).1 = []) →
  incident_names (Replay.print_each body l).1 = [].
Proof.
  intros Hbody. induction l as [|x l IH]; [done|]. simpl. unfold Replay.and_then.
  destruct (body x) as [ls [e|]] eqn:Hx; simpl.
  - specialize (Hbody x). by rewrite Hx in Hbody.
  - rewrite incident_names_app, IH. specialize (Hbody x). rewrite Hx in Hbody.
    simpl in Hbody. by rewrite Hbody.
Qed.

Lemma print_component_no_names (c : dict) :
  incident_names (Replay.print_component c).1 = [].
Proof.
  unfold Replay.print_component. by destruct (_ ≫= _) as [[name status]|e].
Qed.

Section ReplayProperties.
Context `{DateTimeLib}.

Lemma print_update_no_names (u : dict) :
  incident_names (Replay.print_update u).1 = [].
Proof. unfold Replay.print_update. by destruct (_ ≫= _) as [time|e]. Qed.

Lemma print_updates_lines (us : list dict) :
  (Replay.print_each Replay.print_update us).2 = None →
  Forall2 update_line_of us (Replay.print_each Replay.print_update us).1.
Proof.
  induction us as [|u us IH]; [by constructor|]. simpl. intros Hok.
  apply and_then_returns in Hok as (Hu & Hus & ->).
  assert (∃ l, (Replay.print_update u).1 = [l] ∧ update_line_of u l) as (l & -> & Hl).
  { unfold Replay.print_update, getitem in *.
    destruct (u !! "created_at") as [created_at|] eqn:Hc; simpl in *; [|done].
    destruct (fmt_time created_at) as [time|] eqn:Ht; simpl in *; [|done].
    eexists. split; [done|]. by exists created_at, time. }
  constructor; [done|]. by apply IH.
Qed.

Lemma print_incident_returns (inc : incident) :
  (Replay.print_incident inc).2 = None →
  ∃ head tail,
    (Replay.print_incident inc).1 = head ++ tail
    ∧ incident_names head = [get (inc_fields inc) "name" ""]
    ∧ Forall (λ l, is_update_line l = false) head
    ∧ Forall2 update_line_of (rev (default [] (incident_updates inc))) tail.
Proof.
  unfold Replay.print_incident. cbv zeta.
  destruct (if Http.truthy (inc_fields inc !! "resolved_at") then _ else _)
    as [resolved|e]; [|done].
  destruct (inc_fields inc !! "name") as [name|] eqn:Hname;
    [|by rewrite (getitem_None _ _ Hname)].
  rewrite (getitem_Some _ _ _ Hname), (get_Some _ _ _ _ Hname).
  destruct (_ ≫= _) as [created|e]; [|done].
  cbv beta iota. intros Hok. apply and_then_returns in Hok as (_ & Hok & Hl1).
  apply and_then_returns in Hok as (_ & Hok & Hl2).
  eexists (_ ++ _), _. split; [by rewrite Hl1, Hl2, app_assoc|]. simpl.
  split; [by destruct (Http.truthy _)|]. split; [|by apply print_updates_lines].
  destruct (Http.truthy _); by repeat constructor.
Qed.

(** X21. [replay] shows the first ten incidents of the document and no
    other: when it returns, the incident names it printed are the names of
    the first ten descriptors, in the order of the document, although the
    header above them counts all the incidents of the document. *)
Theorem replay_shows_first_ten (summary : Replay.summary_document)
    (incidents_data : incidents_data) :
  (Replay.replay summary incidents_data).2 = None →
  incident_names (Replay.replay summary incidents_data).1
  = (λ inc, get (inc_fields inc) "name" "")
      <$> take 10 (default [] (incidents incidents_data))
  ∧ In (Replay.IncidentsHeader (length (default [] (incidents incidents_data))))
      (Replay.replay summary incidents_data).1.
Proof.
  unfold Replay.replay. cbv zeta. intros Hok.
  apply and_then_returns in Hok as (_ & Hok & ->).
  apply and_then_returns in Hok as (Hcomps & Hok & ->).
  apply and_then_returns in Hok as (_ & Hok & ->).
  apply and_then_returns in Hok as (Hincs & _ & ->).
  split.
  - rewrite !incident_names_app.
    rewrite (print_each_no_names _ _ print_component_no_names). simpl.
    rewrite app_nil_r. clear Hcomps.
    induction (take 10 (default [] (incidents incidents_data))) as [|inc incs IH];
      [done|].
    simpl in *. apply and_then_returns in Hincs as (Hinc & Hincs & ->).
    destruct (print_incident_returns inc Hinc) as (head & tail & -> & Hhead & _ & Htail).
    rewrite !incident_names_app, Hhead, (IH Hincs).
    assert (incident_names tail = []) as ->; [|done].
    clear -Htail. induction Htail as [|u l us ls (c & t & _ & _ & ->) _ IH]; [done|].
    done.
  - apply in_or_app. right. apply in_or_app. right. by left.
Qed.

(** X22. [replay] lists the updates of an incident in the reverse of the
    order in which the document delivers them (so oldest first for a
    document that delivers them latest first), after the lines of the
    incident itself. *)
Theorem replay_lists_updates_reversed (inc : incident) :
  (Replay.print_incident inc).2 = None →
  ∃ head tail,
    (Replay.print_incident inc).1 = head ++ tail
    ∧ Forall (λ l, is_update_line l = false) head
    ∧ Forall2 update_line_of (rev (default [] (incident_updates inc))) tail.
Proof.
  intros Hok.
  destruct (print_incident_returns inc Hok) as (head & tail & Hlines & _ & Hhead & Htail).
  by exists head, tail.
Qed.
End ReplayProperties.

Lemma replay_shows_first_ten_witness :
  incident_names
    (Replay.replay (H := utc_datetime)
       {| Replay.summary_status := None;
          Replay.summary_components := Some [api_operational] |}
       {| incidents := Some (replicate 12 resolved_outage) |}).1
  = replicate 10 "Outage".
Proof.
  destruct (replay_shows_first_ten (H := utc_datetime)
              {| Replay.summary_status := None;
                 Replay.summary_components := Some [api_operational] |}
              {| incidents := Some (replicate 12 resolved_outage) |}) as [Hnames _];
    [by vm_compute|].
  rewrite Hnames. by vm_compute.
Defined.

Lemma replay_lists_updates_reversed_witness :
  ∃ head tail,
    (Replay.print_incident (H := utc_datetime) resolved_outage).1 = head ++ tail
    ∧ Forall (λ l, is_update_line l = false) head
    ∧ Forall2 (update_line_of (H := utc_datetime)) [update_a; update_b] tail.
Proof.
  apply (replay_lists_updates_reversed (H := utc_datetime) resolved_outage).
  by vm_compute.
Defined.

(** * The first iteration of the server *)

Section ServerFirstRun.
Context `{DateTimeLib}.

Lemma log_updates_are_updates (inc : incident) (us : list dict) (c : bool)
    (st : Server.globals) :
  Forall (λ ev, is_update ev = true)
    (out_events (for_each (Server.log_update inc) us c st)).
Proof.
  apply for_each_events_Forall. intros u c' st'. unfold Server.log_update. cbv zeta.
  destruct (_ ≫= _) as [[time name]|e]; by repeat constructor.
Qed.

Lemma load_component_keeps_first_run (comp : dict) (c : bool) (st : Server.globals) :
  Server.first_run (out_state (Server.load_component comp c st)) = Server.first_run st.
Proof.
  unfold Server.load_component. by destruct (_ ≫= _) as [[cid status]|e].
Qed.

(** X25. While its first-run flag is set the server pushes no
    "COMPONENT CHANGE" and no "NEW INCIDENT": whatever the documents of the
    first iteration hold, also a component ID repeated with two statuses,
    every notification it pushes is the "UPDATE" of an incident. *)
Theorem server_first_iteration_only_updates (f : fetched) (st : Server.globals) :
  Server.first_run st = true →
  Forall (λ ev, is_update ev = true) (out_events (Server.poll_iteration f st)).
Proof.
  intros Hfr. unfold Server.poll_iteration. rewrite Hfr.
  set (o1 := match fetched_summary f with
             | Some summary => for_each Server.load_component _ false st
             | None => returned st [] false
             end).
  assert (Server.first_run (out_state o1) = true
          ∧ Forall (λ ev, is_update ev = true) (out_events o1)) as [H1 He1].
  { unfold o1. destruct (fetched_summary f) as [summary|]; [|by split]. split.
    - rewrite <- Hfr. apply (for_each_keeps Server.load_component Server.first_run).
      apply load_component_keeps_first_run.
    - apply for_each_events_Forall. intros comp c st'. unfold Server.load_component.
      destruct (_ ≫= _) as [[cid status]|e]; constructor. }
  clearbody o1. destruct o1 as [st1 evs1 [c1|e1]]; simpl in *; [|done].
  set (o2 := match fetched_incidents f with
             | Some data => for_each Server.diff_incident _ false st1
             | None => returned st1 [] false
             end).
  assert (Forall (λ ev, is_update ev = true) (out_events o2)) as He2.
  { unfold o2. destruct (fetched_incidents f) as [data|]; [|constructor].
    assert (∀ l c st', Server.first_run st' = true →
              Forall (λ ev, is_update ev = true)
                (out_events (for_each Server.diff_incident l c st'))) as Hloop.
    { clear. intros l. induction l as [|inc l IH]; intros c st' Hfr'; [constructor|].
      simpl.
      assert (Forall (λ ev, is_update ev = true)
                (out_events (Server.diff_incident inc c st'))
              ∧ Server.first_run (out_state (Server.diff_incident inc c st')) = true)
        as [Hev Hfr''].
      { unfold Server.diff_incident.
        destruct (_ ≫= _) as [[iid ids]|e]; [|by split]. simpl.
        destruct (Server.known_incidents st' !! iid) as [known|].
        - destruct (decide _); [by split|].
          set (us := sorted_reverse created_at_key _).
          pose proof (log_updates_are_updates inc us c st') as Hus.
          pose proof (for_each_keeps (Server.log_update inc) Server.first_run) as Hkeep.
          specialize (Hkeep) with (l := us) (c := c) (st := st').
          destruct (for_each (Server.log_update inc) us c st') as [st3 evs3 [c3|e3]];
            simpl in *.
          + split; [done|]. done.
          + split; [done|]. rewrite Hkeep; [done|].
            intros u c' st''. unfold Server.log_update. cbv zeta.
            by destruct (_ ≫= _) as [[time name]|e].
        - simpl. rewrite Hfr'. by split. }
      destruct (Server.diff_incident inc c st') as [st2 evs2 [c2|e2]]; simpl in *; [|done].
      apply Forall_app. split; [done|]. by apply IH. }
    by apply Hloop. }
  clearbody o2. destruct o2 as [st2 evs2 [c2|e2]]; simpl in *; by apply Forall_app.
Qed.
End ServerFirstRun.

Lemma server_first_iteration_only_updates_witness :
  Forall (λ ev, is_update ev = true)
    (out_events (Server.poll_iteration (H := utc_datetime) tick_repeated_component
                   Server.init)).
Proof.
  apply (server_first_iteration_only_updates (H := utc_datetime)). reflexivity.
Defined.

(** * The further properties at concrete documents *)

Lemma poll_flag_reports_printing_witness :
  true = true ↔ out_events (Cli.poll (H := utc_datetime) tick_cb tracking_outage) ≠ [].
Proof.
  apply (poll_flag_reports_printing (H := utc_datetime) tick_cb tracking_outage true).
  by vm_compute.
Defined.

Lemma first_run_prints_no_new_incident_witness :
  Forall (λ ev, is_new_incident ev = false)
    (out_events (Cli.poll (H := utc_datetime) tick_ab (Cli.init None))).
Proof.
  apply (first_run_prints_no_new_incident (H := utc_datetime) tick_ab (Cli.init None)).
  reflexivity.
Defined.

Lemma poll_loop_stops_at_exception_witness :
  Server.poll_loop (H := utc_datetime)
    ([tick_operational] ++ tick_without_id :: [tick_ab; tick_cb]) Server.init
  = Server.poll_loop (H := utc_datetime) ([tick_operational] ++ [tick_without_id])
      Server.init.
Proof.
  apply (poll_loop_stops_at_exception (H := utc_datetime)). by vm_compute.
Defined.

Lemma same_summary_again_is_silent_witness :
  Cli.process_summary {| components := Some [api_operational] |}
    (out_state (Cli.process_summary {| components := Some [api_operational] |}
                  (Cli.init None)))
  = returned
      (out_state (Cli.process_summary {| components := Some [api_operational] |}
                    (Cli.init None)))
      [] false.
Proof.
  apply (same_summary_again_is_silent {| components := Some [api_operational] |}
           (Cli.init None)).
  - repeat constructor; by eexists.
  - apply NoDup_singleton.
Defined.

Lemma same_incidents_again_is_silent_witness :
  out_events
    (Cli.process_incidents (H := utc_datetime)
       {| incidents := Some [outage "resolved" [update_c; update_b]; bare_incident] |} false
       (out_state
          (Cli.process_incidents (H := utc_datetime)
             {| incidents := Some [outage "resolved" [update_c; update_b]; bare_incident] |}
             false tracking_outage)))
  = [].
Proof.
  rewrite (same_incidents_again_is_silent (H := utc_datetime)
             {| incidents := Some [outage "resolved" [update_c; update_b]; bare_incident] |}
             false false tracking_outage); [done| |].
  - repeat constructor; try (by eexists); by vm_compute.
  - apply (bool_decide_unpack _). by vm_compute.
Defined.

Lemma first_poll_is_silent_witness :
  out_events (Cli.poll (H := utc_datetime) tick_ab (Cli.init None)) = [].
Proof.
  apply (first_poll_is_silent (H := utc_datetime) tick_ab None).
  - vm_compute. constructor.
  - vm_compute. apply NoDup_singleton.
Defined.

Lemma failed_first_tick_spends_suppression_witness :
  (Cli.run (H := utc_datetime)
     [tick_nothing; tick_incidents [outage "identified" [update_b; update_a]; bare_incident]]
     (Cli.init None)).2
  = [Cli.NewIncident "Outage" "major" "identified" "The cause has been identified.";
     Cli.NewIncident "Maintenance" "none" "unknown" ""].
Proof.
  destruct (failed_first_tick_spends_suppression (H := utc_datetime)
              [outage "identified" [update_b; update_a]; bare_incident] None)
    as [Hflood _].
  - repeat constructor; try (by eexists); by vm_compute.
  - apply (bool_decide_unpack _). by vm_compute.
  - rewrite Hflood. by vm_compute.
Defined.

Lemma sleep_interval_forget_witness :
  Server.sleep_interval (forget tracking_outage) = 15.
Proof. rewrite (sleep_interval_forget tracking_outage); [by vm_compute|reflexivity]. Defined.
